(** * GeneTicker: codon usage statistics of the CDS features of a GenBank file

    A shallow embedding of [GeneTicker/core.py] and the properties of its
    aggregation and report stages.

    Conventions of the embedding.
    - Python [str] is [string]; [len], slicing and indexing are
      [String.length], [substring] and [String.get].  Sequence data of a
      [Bio.Seq.Seq] is ASCII, so [str.upper] is the ASCII upper-casing.
    - [Counter[Tuple[str, str, str]]] is a [gmap] from triples of strings to
      [nat]; a missing key counts as [0].
    - Python [int] values here are lengths, indices and counts: [nat].
    - [Freq. (%)] is a double in the source; the embedding computes it in
      exact rational arithmetic ([Qc]), and so is the threshold.
    - [SeqIO.parse] is a lazy iterator of Biopython: what it delivers is the
      list of records it yields and the exception, if any, that ends the
      iteration (see [source]).
    - Of what the function prints, the per-feature warnings of verbose mode
      are kept, as a list of [warning]s in order of emission. *)

From Stdlib Require Import Ascii String QArith Qcanon.
From stdpp Require Import gmap strings list fin_maps sorting numbers.

(** ** Strings *)

Module Str.

(** [str.upper] on ASCII data: a-z are mapped to A-Z, the rest is kept. *)
Definition upper_ascii (c : ascii) : ascii :=
  let n := nat_of_ascii c in
  if (97 <=? n)%nat && (n <=? 122)%nat then ascii_of_nat (n - 32) else c.

Fixpoint upper (s : string) : string :=
  match s with
  | EmptyString => EmptyString
  | String c s' => String (upper_ascii c) (upper s')
  end.

(** The characters of a string, as [set(s)] collects them. *)
Fixpoint chars (s : string) : list ascii :=
  match s with
  | EmptyString => []
  | String c s' => c :: chars s'
  end.

(** [s[i]]: a string of one character.  Python raises [IndexError] when
    [i] is out of range; the only use is guarded by [i < len(s)]. *)
Definition index (s : string) (i : nat) : string :=
  match String.get i s with
  | Some c => String c EmptyString
  | None => EmptyString
  end.

(** [s[i:j]] for [0 <= i <= j]: clamped at the end of [s]. *)
Definition slice (s : string) (i j : nat) : string := substring i (j - i) s.

End Str.

(** [range(start, stop, step)] for a positive [step]. *)
Definition range (start stop step : nat) : list nat :=
  (λ k, start + k * step) <$> List.seq 0 ((stop - start + step - 1) / step).

(** ** Data model *)

(** Key of the counter: [(codon, aa_code, special_type)]. *)
Abbreviation CodonAAKey := (string * string * string)%type.

(** [CodonAACounter = Counter[Tuple[str, str, str]]] *)
Abbreviation CodonAACounter := (gmap (string * string * string) nat).

(** [VALID_BASES = set("ATCG")] *)
Definition VALID_BASES : gset ascii := list_to_set (Str.chars "ATCG").

(** [DEFAULT_MIN_FREQ = 0.05] *)
Definition DEFAULT_MIN_FREQ : Qc := Q2Qc (5 # 100).

(** A [SeqFeature] as the function reads it: the type tag, the qualifiers
    and the extraction operation applied to the sequence of the record.
    Biopython's GenBank reader builds the value of a qualifier by starting a
    list with the first value and appending the others, so the list under a
    key has a first element and [[0]] on it does not fail: the value is kept
    as that first element and the list of the others. *)
Record SeqFeature := {
  type : string;
  qualifiers : gmap string (string * list string);
  extract : string → string
}.

(** A [SeqRecord], of which the function reads the sequence and the
    features ([record.id] only appears in a message of verbose mode). *)
Record SeqRecord := {
  seq : string;
  features : list SeqFeature
}.

(** The two handlers of the function. *)
Inductive exn := FileNotFoundError | Exception.

(** What [SeqIO.parse(gbff_file, "genbank")] delivers inside the [try]
    block: the records it yields, and the exception that ends the iteration
    when the file is missing, unreadable or malformed ([None] when the
    iterator is exhausted normally).  The handlers do not look at what was
    counted before the exception, so [yielded] is all that was processed
    until then. *)
Record source := {
  yielded : list SeqRecord;
  raised : option exn
}.

(** The per-feature messages of verbose mode. *)
Inductive warning :=
| MissingTranslation (locus_tag : string)
| SkippingPseudogene (locus_tag : string)
| NonATCG (locus_tag : string) (len : nat)
| Truncating (locus_tag : string) (cds_len truncated_len : nat).

(** The local variables the loops update. *)
Record state := {
  codon_aa_counts : gmap (string * string * string) nat;
  total_cds_processed : nat;
  printed : list warning
}.

Definition initial : state :=
  {| codon_aa_counts := ∅; total_cds_processed := 0; printed := [] |}.

(** ** Aggregation (core.py, lines 54-123) *)

(** [qualifiers.get(key, [default])[0]] *)
Definition qualifier (f : SeqFeature) (key default : string) : string :=
  match qualifiers f !! key with
  | Some (v, _) => v
  | None => default
  end.

(** [counts[key] += 1] on a [Counter] *)
Definition incr (key : CodonAAKey) (counts : CodonAACounter) : CodonAACounter :=
  <[key := S (default 0 (counts !! key))]> counts.

(** [set(cds_seq_str).issubset(VALID_BASES)] *)
Definition issubset_valid (cds_seq_str : string) : bool :=
  bool_decide (list_to_set (C := gset ascii) (Str.chars cds_seq_str) ⊆ VALID_BASES).

(** The body of the codon loop, lines 105-120: the key counted at offset
    [i]. *)
Definition codon_event (cds_seq_str translation_str : string) (i : nat) : CodonAAKey :=
  let codon := Str.slice cds_seq_str i (i + 3) in
  let aa_index := i / 3 in
  if decide (aa_index < String.length translation_str) then
    (codon, Str.index translation_str aa_index, if decide (i = 0) then "START" else "")
  else
    (codon, "*", "STOP").

(** The codon loop, lines 104-123. *)
Definition count_codons (cds_seq_str translation_str : string) (truncated_len : nat)
    (counts : CodonAACounter) : CodonAACounter :=
  foldl (λ c i, incr (codon_event cds_seq_str translation_str i) c)
        counts (range 0 truncated_len 3).

Definition warn (verbose : bool) (w : warning) (st : state) : state :=
  if verbose
  then {| codon_aa_counts := codon_aa_counts st;
          total_cds_processed := total_cds_processed st;
          printed := printed st ++ [w] |}
  else st.

(** The body of the loop over the features, lines 64-123. *)
Definition process_feature (verbose : bool) (record_seq : string)
    (feature : SeqFeature) (st : state) : state :=
  if decide (type feature = "CDS") then
    let locus_tag := qualifier feature "locus_tag" "?" in
    let translation_str := qualifier feature "translation" "" in
    if decide (translation_str = "") then
      warn verbose (MissingTranslation locus_tag) st
    else if decide (is_Some (qualifiers feature !! "pseudo")) then
      warn verbose (SkippingPseudogene locus_tag) st
    else
      let st := {| codon_aa_counts := codon_aa_counts st;
                   total_cds_processed := total_cds_processed st + 1;
                   printed := printed st |} in
      let cds_seq := extract feature record_seq in
      let cds_seq_str := Str.upper cds_seq in
      if negb (issubset_valid cds_seq_str) then
        warn verbose (NonATCG locus_tag (String.length cds_seq)) st
      else
        let cds_len := String.length cds_seq in
        let truncated_len := (cds_len / 3) * 3 in
        let st := if decide (cds_len ≠ truncated_len)
                  then warn verbose (Truncating locus_tag cds_len truncated_len) st
                  else st in
        {| codon_aa_counts :=
             count_codons cds_seq_str translation_str truncated_len (codon_aa_counts st);
           total_cds_processed := total_cds_processed st;
           printed := printed st |}
  else st.

(** The loop over the features of a record, line 63. *)
Definition process_record (verbose : bool) (record : SeqRecord) (st : state) : state :=
  foldl (λ st feature, process_feature verbose (seq record) feature st)
        st (features record).

(** The loop over the records, line 58, for the records the reader yields. *)
Definition process_records (verbose : bool) (records : list SeqRecord) (st : state) : state :=
  foldl (λ st record, process_record verbose record st) st records.

(** The [try] block, lines 54-130: the state after the last record, or the
    exception that ended the iteration. *)
Definition aggregate (verbose : bool) (src : source) : exn + state :=
  let st := process_records verbose (yielded src) initial in
  match raised src with
  | Some e => inl e
  | None => inr st
  end.

(** ** Report (core.py, lines 135-167) *)

(** A row of the data frame, with the columns of the source. *)
Record row := {
  Amino_Acid : string;
  Codon : string;
  Count : nat;
  Freq : Qc;
  Special_Type : string
}.

(** [sum(codon_aa_counts.values())] *)
Definition sum_values (counts : CodonAACounter) : nat :=
  map_fold (λ _ count acc, acc + count) 0 counts.

(** Comparison of the tuples [sorted] compares: component by component,
    the first difference decides; [str] components are compared
    lexicographically on code points ([String.compare]). *)
Definition lexico (c : comparison) (rest : comparison) : comparison :=
  match c with
  | Eq => rest
  | _ => c
  end.

Definition key_compare (k1 k2 : CodonAAKey) : comparison :=
  lexico (String.compare k1.1.1 k2.1.1)
    (lexico (String.compare k1.1.2 k2.1.2) (String.compare k1.2 k2.2)).

Definition item_compare (x y : CodonAAKey * nat) : comparison :=
  lexico (key_compare x.1 y.1) (Nat.compare x.2 y.2).

Definition item_le (x y : CodonAAKey * nat) : Prop := item_compare x y ≠ Gt.

Global Instance item_le_dec : RelDecision item_le.
Proof. intros x y. unfold item_le. apply _. Defined.

(** [sorted(codon_aa_counts.items())] *)
Definition sorted_items (counts : CodonAACounter) : list (CodonAAKey * nat) :=
  merge_sort item_le (map_to_list counts).

Definition Qc_of_nat (n : nat) : Qc := Qc_of_Z (Z.of_nat n).

(** The dictionary appended to [data], lines 141-152. *)
Definition make_row (total_codons : nat) (item : CodonAAKey * nat) : row :=
  let '((codon, aa_code, special_type), count) := item in
  let frequency_percent := (Qc_of_nat count / Qc_of_nat total_codons * Qc_of_nat 100)%Qc in
  {| Amino_Acid :=
       if decide (special_type = "STOP" ∨ aa_code = "*") then "*" else aa_code;
     Codon := codon;
     Count := count;
     Freq := frequency_percent;
     Special_Type := special_type |}.

(** Lines 135-167: from the counter to the returned data frame. *)
Definition build_report (counts : CodonAACounter) (min_freq_threshold : Qc)
    : option (list row) :=
  let total_codons := sum_values counts in
  if decide (total_codons = 0) then None
  else
    let data := make_row total_codons <$> sorted_items counts in
    match data with
    | [] => None
    | _ =>
        if decide (0 < min_freq_threshold)%Qc
        then Some (filter (λ r, (min_freq_threshold ≤ Freq r)%Qc) data)
        else Some data
    end.

(** [calculate_codon_frequency_to_df]: both handlers return [None]. *)
Definition calculate_codon_frequency_to_df (src : source)
    (min_freq_threshold : Qc) (verbose : bool) : option (list row) :=
  match aggregate verbose src with
  | inl FileNotFoundError => None
  | inl Exception => None
  | inr st => build_report (codon_aa_counts st) min_freq_threshold
  end.

(** [run_codon_analysis], as far as its result goes: the export and the
    printing of the data frame do not change what is returned. *)
Definition run_codon_analysis (file_exists is_file : bool) (src : source)
    (no_freq_filter verbose : bool) : option (list row) :=
  if negb file_exists || negb is_file then None
  else
    let min_freq_threshold := if no_freq_filter then 0%Qc else DEFAULT_MIN_FREQ in
    calculate_codon_frequency_to_df src min_freq_threshold verbose.

(** The sum of the column [Freq. (%)] of a data frame. *)
Definition sum_freq (rows : list row) : Qc :=
  foldr (λ r acc, Freq r + acc)%Qc 0%Qc rows.

(** The rows of the data frame before the filter, lines 139-153. *)
Definition report_data (counts : CodonAACounter) : list row :=
  make_row (sum_values counts) <$> sorted_items counts.

(** The tuple a row is known by: codon, amino acid and special type. *)
Definition row_key (r : row) : string * string * string :=
  (Codon r, Amino_Acid r, Special_Type r).

(** ** Orders given by a comparison function, for the sorting *)

Class Ordering {A : Type} (cmp : A → A → comparison) := {
  cmp_eq : ∀ x y, cmp x y = Eq ↔ x = y;
  cmp_opp : ∀ x y, cmp y x = CompOpp (cmp x y);
  cmp_trans : ∀ x y z, cmp x y = Lt → cmp y z = Lt → cmp x z = Lt
}.

(** The comparison of pairs, as Python compares tuples. *)
Definition cmp_pair {A B : Type} (cmpA : A → A → comparison)
    (cmpB : B → B → comparison) (x y : A * B) : comparison :=
  lexico (cmpA x.1 y.1) (cmpB x.2 y.2).

(** ** Which features are counted, in the words of the specification *)

Module Spec.

(** The translation qualifier is absent, or its value is empty. *)
Definition lacks_translation (f : SeqFeature) : Prop :=
  match qualifiers f !! "translation" with
  | None => True
  | Some (v, _) => v = ""
  end.

(** The feature carries a [pseudo] qualifier. *)
Definition pseudo (f : SeqFeature) : Prop :=
  is_Some (qualifiers f !! "pseudo").

(** Every character of the upper-cased sequence is one of A, T, C, G. *)
Definition only_ATCG (s : string) : Prop :=
  Forall (λ c, c = "A"%char ∨ c = "T"%char ∨ c = "C"%char ∨ c = "G"%char)
         (Str.chars (Str.upper s)).

(** A CDS feature that is not skipped. *)
Definition counted (record_seq : string) (f : SeqFeature) : Prop :=
  type f = "CDS" ∧ ¬ lacks_translation f ∧ ¬ pseudo f
  ∧ only_ATCG (extract f record_seq).

Global Instance lacks_translation_dec f : Decision (lacks_translation f).
Proof.
  unfold lacks_translation. destruct (qualifiers f !! "translation") as [[v ?]|]; apply _.
Defined.

Global Instance counted_dec record_seq f : Decision (counted record_seq f).
Proof. unfold counted, pseudo, only_ATCG. apply _. Defined.

(** The complete codon positions of a feature: [len // 3] when it is
    counted, none when it is skipped. *)
Definition complete_codons (record_seq : string) (f : SeqFeature) : nat :=
  if decide (counted record_seq f)
  then String.length (extract f record_seq) / 3
  else 0.

(** The complete codon positions of all the features of the records. *)
Definition total_complete_codons (records : list SeqRecord) : nat :=
  sum_list_with (λ r, sum_list_with (complete_codons (seq r)) (features r)) records.

(** The feature whose extracted sequence is cut after its last complete
    codon. *)
Definition truncated (f : SeqFeature) : SeqFeature :=
  {| type := type f;
     qualifiers := qualifiers f;
     extract := λ record_seq,
       let s := extract f record_seq in
       substring 0 (String.length s / 3 * 3) s |}.

End Spec.

(** What the data model asks of a key counted at offset [i] of a feature
    with the translation [translation_str]. *)
Definition event_invariant (translation_str : string) (i : nat)
    (key : string * string * string) : Prop :=
  let '(codon, aa_code, special_type) := key in
  (special_type = "START" → i = 0)
  ∧ (special_type = "STOP" → String.length translation_str ≤ i / 3 ∧ aa_code = "*")
  ∧ String.length codon = 3
  ∧ Forall (λ c, c = "A"%char ∨ c = "T"%char ∨ c = "C"%char ∨ c = "G"%char)
           (Str.chars codon).

(** The key was counted for the codon at offset [i] of the counted feature
    [f] of the record [r]. *)
Definition counted_at (r : SeqRecord) (f : SeqFeature) (i : nat)
    (key : string * string * string) : Prop :=
  Spec.counted (seq r) f
  ∧ i ∈ range 0 (String.length (extract f (seq r)) / 3 * 3) 3
  ∧ key = codon_event (Str.upper (extract f (seq r))) (qualifier f "translation" "") i.

(** The record [r] with the features [fs] in place of its own. *)
Definition with_features (r : SeqRecord) (fs : list SeqFeature) : SeqRecord :=
  {| seq := seq r; features := fs |}.

(** ** Concrete inputs *)

(** The file of [tests/test_core.py] as the reader delivers it: one record
    of 9 bases with one CDS feature at [1..9]. *)
Definition test_feature : SeqFeature :=
  {| type := "CDS";
     qualifiers := {[ "locus_tag" := ("TEST1", []); "translation" := ("MGG", []) ]};
     extract := λ record_seq, substring 0 9 record_seq |}.

Definition test_record : SeqRecord :=
  {| seq := "ATGGCTGGT"; features := [test_feature] |}.

Definition test_source : source :=
  {| yielded := [test_record]; raised := None |}.

(** The counter and the data frame expected for it. *)
Definition mgg_counts : gmap (string * string * string) nat :=
  {[ ("ATG", "M", "START") := 1; ("GCT", "G", "") := 1; ("GGT", "G", "") := 1 ]}.

Definition mgg_rows : list row :=
  [ {| Amino_Acid := "M"; Codon := "ATG"; Count := 1;
       Freq := Q2Qc (100 # 3); Special_Type := "START" |};
    {| Amino_Acid := "G"; Codon := "GCT"; Count := 1;
       Freq := Q2Qc (100 # 3); Special_Type := "" |};
    {| Amino_Acid := "G"; Codon := "GGT"; Count := 1;
       Freq := Q2Qc (100 # 3); Special_Type := "" |} ].

(** A record of 10 bases with a CDS feature over all of it, a feature of
    another type, a pseudogene and a CDS with an ambiguous base. *)
Definition ten_feature : SeqFeature :=
  {| type := "CDS";
     qualifiers := {[ "locus_tag" := ("TEN", []); "translation" := ("MG", []) ]};
     extract := λ record_seq, record_seq |}.

Definition gene_feature : SeqFeature :=
  {| type := "gene";
     qualifiers := {[ "locus_tag" := ("TEN", []) ]};
     extract := λ record_seq, record_seq |}.

Definition pseudo_feature : SeqFeature :=
  {| type := "CDS";
     qualifiers := {[ "pseudo" := ("", []); "translation" := ("MA", []) ]};
     extract := λ record_seq, substring 0 6 record_seq |}.

Definition ambiguous_feature : SeqFeature :=
  {| type := "CDS";
     qualifiers := {[ "locus_tag" := ("AMB", []); "translation" := ("MA", []) ]};
     extract := λ record_seq, "ATGNCT" |}.

Definition ten_record : SeqRecord :=
  {| seq := "atggctggta";
     features := [gene_feature; ten_feature; pseudo_feature; ambiguous_feature] |}.

Definition ten_source : source :=
  {| yielded := [test_record; ten_record]; raised := None |}.

(** A CDS feature with a translation whose location spans no base. *)
Definition empty_feature : SeqFeature :=
  {| type := "CDS";
     qualifiers := {[ "locus_tag" := ("EMPTY", []); "translation" := ("M", []) ]};
     extract := λ record_seq, "" |}.

(** The counter of [ten_source]: two of the four keys are counted twice. *)
Definition ten_counts : gmap (string * string * string) nat :=
  {[ ("ATG", "M", "START") := 2; ("GCT", "G", "") := 2;
     ("GGT", "G", "") := 1; ("GGT", "*", "STOP") := 1 ]}.

(** ** The counter read back *)

(** [counts[key]] on a [Counter], as [+= 1] reads it: 0 for a missing key. *)
Definition count_of (key : CodonAAKey) (counts : CodonAACounter) : nat :=
  default 0 (counts !! key).

(** The keys the body of the feature loop counts, lines 66-123, in the
    order of the codon loop; none when the feature is not a CDS or the body
    [continue]s before the loop. *)
Definition feature_events (record_seq : string) (feature : SeqFeature)
    : list CodonAAKey :=
  if decide (type feature = "CDS") then
    let translation_str := qualifier feature "translation" "" in
    if decide (translation_str = "") then []
    else if decide (is_Some (qualifiers feature !! "pseudo")) then []
    else
      let cds_seq := extract feature record_seq in
      let cds_seq_str := Str.upper cds_seq in
      if negb (issubset_valid cds_seq_str) then []
      else
        let truncated_len := (String.length cds_seq / 3) * 3 in
        codon_event cds_seq_str translation_str <$> range 0 truncated_len 3
  else [].

Definition record_events (record : SeqRecord) : list CodonAAKey :=
  features record ≫= feature_events (seq record).

Definition source_events (records : list SeqRecord) : list CodonAAKey :=
  records ≫= record_events.

(** The number of keys with the property [P] among the keys counted. *)
Definition occurrences (P : CodonAAKey → Prop) `{!∀ k, Decision (P k)}
    (events : list CodonAAKey) : nat :=
  length (filter P events).

(** [sum(count for key, count in counts.items() if P(key))] *)
Definition sum_where (P : CodonAAKey → Prop) `{!∀ k, Decision (P k)}
    (counts : CodonAACounter) : nat :=
  sum_list_with (λ item, if decide (P item.1) then item.2 else 0) (map_to_list counts).

(** The codon positions of a feature that come out as START: the first
    one, when the feature is counted and has a complete codon. *)
Definition start_codons (record_seq : string) (f : SeqFeature) : nat :=
  if decide (Spec.counted record_seq f)
  then 1 `min` (String.length (extract f record_seq) / 3)
  else 0.

(** The codon positions of a feature that come out as STOP: those past the
    end of the translation, when the feature is counted. *)
Definition stop_codons (record_seq : string) (f : SeqFeature) : nat :=
  if decide (Spec.counted record_seq f)
  then String.length (extract f record_seq) / 3
       - String.length (qualifier f "translation" "")
  else 0.

(** A CDS feature with a translation and without a [pseudo] qualifier. *)
Definition eligible (f : SeqFeature) : Prop :=
  type f = "CDS" ∧ ¬ Spec.lacks_translation f ∧ ¬ Spec.pseudo f.

(** A CDS feature with one of the four defects: no translation, a [pseudo]
    qualifier, a base other than A, T, C, G, or a length that is not a
    multiple of 3. *)
Definition defective (record_seq : string) (f : SeqFeature) : Prop :=
  type f = "CDS"
  ∧ (Spec.lacks_translation f ∨ Spec.pseudo f
     ∨ ¬ Spec.only_ATCG (extract f record_seq)
     ∨ String.length (extract f record_seq) `mod` 3 ≠ 0).

Global Instance eligible_dec f : Decision (eligible f).
Proof. unfold eligible, Spec.pseudo. apply _. Defined.

Global Instance defective_dec record_seq f : Decision (defective record_seq f).
Proof. unfold defective, Spec.pseudo, Spec.only_ATCG. apply _. Defined.

(** All the features of the records, each with the sequence of its record. *)
Definition all_features (records : list SeqRecord) : list (string * SeqFeature) :=
  records ≫= λ r, (λ f, (seq r, f)) <$> features r.

(** [ten_feature] with its sequence already in upper case. *)
Definition ten_feature_upper : SeqFeature :=
  {| type := "CDS";
     qualifiers := qualifiers ten_feature;
     extract := λ record_seq, "ATGGCTGGTA" |}.

(** The shape of a row: a codon of three of the letters A, T, C, G, a
    one-character amino acid, one of the three special types, and "*" as
    the amino acid of a STOP row. *)
Definition row_shape (r : row) : Prop :=
  String.length (Codon r) = 3
  ∧ Forall (λ c, c = "A"%char ∨ c = "T"%char ∨ c = "C"%char ∨ c = "G"%char)
           (Str.chars (Codon r))
  ∧ String.length (Amino_Acid r) = 1
  ∧ (Special_Type r = "" ∨ Special_Type r = "START" ∨ Special_Type r = "STOP")
  ∧ (Special_Type r = "STOP" → Amino_Acid r = "*").

(** ** Export and printing (utils.py) and the whole run (core.py, lines 170-214) *)

Module Utils.

(** [str.lower] on ASCII data: A-Z are mapped to a-z, the rest is kept.
    Python agrees with it on the strings of ASCII characters. *)
Definition lower_ascii (c : ascii) : ascii :=
  let n := nat_of_ascii c in
  if (65 <=? n)%nat && (n <=? 90)%nat then ascii_of_nat (n + 32) else c.

Fixpoint lower (s : string) : string :=
  match s with
  | EmptyString => EmptyString
  | String c s' => String (lower_ascii c) (lower s')
  end.

(** The string has ASCII characters only. *)
Definition is_ascii (s : string) : Prop :=
  Forall (λ c, nat_of_ascii c < 128) (Str.chars s).

(** The writers of a pandas data frame the function calls; [to_csv] is
    called with the separator [","] (its default) or a tab. *)
Inductive writer :=
| to_excel | to_csv (sep : string) | to_json | to_pickle | to_xml
| to_feather | to_parquet | to_orc.

(** What a call of a writer does: it returns, or it raises [ImportError]
    (a missing optional dependency) or another exception. *)
Inductive outcome := Returns | RaisesImportError | RaisesException.

(** What the run does to the outside: the calls of the writers and the
    messages of [utils.py] and [run_codon_analysis].  The table that
    [print_results] prints is kept as its title, its total and its rows. *)
Inductive output :=
| Write (w : writer) (df : list row)
| CreatingReport (ext : string)
| UnsupportedExtension (ext : string)
| Exported (entries : nat)
| DependencyError (ext : string)
| UnexpectedError
| InputNotFound
| NothingToReport
| FallingBack
| Report (input_file_name : string) (total_codons : nat) (rows : list row).

Definition tab : string := String (ascii_of_nat 9) EmptyString.

(** [export_results_to_file]: [suffix] is [output_path.suffix], [pandas]
    tells what each call of a writer does. *)
Definition export_results_to_file (pandas : writer → list row → outcome)
    (df : list row) (suffix : string) (verbose : bool) : list output * bool :=
  let start := if verbose then [CreatingReport (lower suffix)] else [] in
  let ext := lower suffix in
  (* the end of the [try] block after the call [w] of a writer, if any *)
  let finish (w : option writer) : list output * bool :=
    match w with
    | None => (start ++ (if verbose then [Exported (length df)] else []), true)
    | Some w =>
        match pandas w df with
        | Returns =>
            (start ++ [Write w df] ++ (if verbose then [Exported (length df)] else []),
             true)
        | RaisesImportError => (start ++ [Write w df; DependencyError ext], false)
        | RaisesException => (start ++ [Write w df; UnexpectedError], false)
        end
    end in
  if decide (ext = ".xlsx") then finish (Some to_excel)
  else if decide (ext = ".csv") then finish (Some (to_csv ","))
  else if decide (ext = ".tsv") then finish (Some (to_csv tab))
  else if decide (ext = ".json") then finish (Some to_json)
  else if decide (ext = ".pickle") then finish (Some to_pickle)
  else if decide (ext = ".xml") then finish (Some to_xml)
  else if decide (ext ∈ [".feather"; ".parquet"; ".orc"]) then
    if decide (ext = ".feather") then finish (Some to_feather)
    else if decide (ext = ".parquet") then finish (Some to_parquet)
    else if decide (ext = ".orc") then finish (Some to_orc)
    else finish None
  else (start ++ [UnsupportedExtension ext], false).

(** [print_results]: the total is the sum of the column [Count] of the data
    frame it is given. *)
Definition print_results (df : list row) (input_file_name : string) : list output :=
  let total_codons := sum_list (Count <$> df) in
  [Report input_file_name total_codons df].

(** The table of the extensions and their writers. *)
Definition writer_of (ext : string) : option writer :=
  list_to_map (M := gmap string writer)
    [ (".xlsx", to_excel); (".csv", to_csv ","); (".tsv", to_csv tab);
      (".json", to_json); (".pickle", to_pickle); (".xml", to_xml);
      (".feather", to_feather); (".parquet", to_parquet); (".orc", to_orc) ] !! ext.

(** The calls of writers among the outputs. *)
Definition writes (out : list output) : list (writer * list row) :=
  omap (λ o, match o with Write w df => Some (w, df) | _ => None end) out.

(** The output hands [df] over: a call of a writer on it that returns, or
    the table of its rows. *)
Definition delivers (pandas : writer → list row → outcome) (df : list row)
    (o : output) : Prop :=
  match o with
  | Write w d => d = df ∧ pandas w d = Returns
  | Report _ _ rows => rows = df
  | _ => False
  end.

End Utils.

Module Pipeline.
Import Utils.

(** [run_codon_analysis] with what it does to the outside.  [output] is the
    suffix of the output path, [None] without an output path;
    [input_file_name] is [input_file.name].  The messages that
    [calculate_codon_frequency_to_df] prints are not among the outputs. *)
Definition run_codon_analysis (pandas : writer → list row → outcome)
    (file_exists is_file : bool) (input_file_name : string) (src : source)
    (output : option string) (no_freq_filter verbose : bool)
    : list Utils.output * option (list row) :=
  if negb file_exists || negb is_file then ([InputNotFound], None)
  else
    let min_freq_threshold := if no_freq_filter then 0%Qc else DEFAULT_MIN_FREQ in
    match calculate_codon_frequency_to_df src min_freq_threshold verbose with
    | None => (if verbose then [NothingToReport] else [], None)
    | Some df =>
        match output with
        | Some suffix =>
            let '(out, export_success) := export_results_to_file pandas df suffix false in
            if negb export_success
            then (out ++ [FallingBack] ++ print_results df input_file_name, Some df)
            else (out, Some df)
        | None => (print_results df input_file_name, Some df)
        end
    end.

End Pipeline.

Global Instance row_eq_dec : EqDecision row.
Proof. solve_decision. Defined.

Global Instance outcome_eq_dec : EqDecision Utils.outcome.
Proof. solve_decision. Defined.

Global Instance delivers_dec pandas df o : Decision (Utils.delivers pandas df o).
Proof. destruct o; simpl; apply _. Defined.

(** A pandas without the optional dependency of the parquet writer. *)
Definition pandas_without_pyarrow (w : Utils.writer) (df : list row) : Utils.outcome :=
  match w with
  | Utils.to_parquet => Utils.RaisesImportError
  | _ => Utils.Returns
  end.

(** ** The [try] block with the exceptions of the loop body *)

(** The handlers of lines 125-130 also catch what the body of the loops
    raises.  [feature.extract(record.seq)] and [str(cds_seq)], lines 82-84,
    raise for a location that does not fit the record or a sequence whose
    content is undefined; here the extraction of a feature gives the
    sequence or the exception.  The state is what the loops have made of
    the local variables when they end or are left by the exception. *)
Module Try.

Record SeqFeature := {
  type : string;
  qualifiers : gmap string (string * list string);
  extract : string → exn + string
}.

Record SeqRecord := {
  seq : string;
  features : list SeqFeature
}.

Record source := {
  yielded : list SeqRecord;
  raised : option exn
}.

(** [qualifiers.get(key, [default])[0]] *)
Definition qualifier (f : SeqFeature) (key default : string) : string :=
  match qualifiers f !! key with
  | Some (v, _) => v
  | None => default
  end.

(** The body of the loop over the features, lines 64-123: the state it
    leaves and the exception it raises, if any. *)
Definition process_feature (verbose : bool) (record_seq : string)
    (feature : SeqFeature) (st : state) : state * option exn :=
  if decide (type feature = "CDS") then
    let locus_tag := qualifier feature "locus_tag" "?" in
    let translation_str := qualifier feature "translation" "" in
    if decide (translation_str = "") then
      (warn verbose (MissingTranslation locus_tag) st, None)
    else if decide (is_Some (qualifiers feature !! "pseudo")) then
      (warn verbose (SkippingPseudogene locus_tag) st, None)
    else
      let st := {| codon_aa_counts := codon_aa_counts st;
                   total_cds_processed := total_cds_processed st + 1;
                   printed := printed st |} in
      match extract feature record_seq with
      | inl e => (st, Some e)
      | inr cds_seq =>
          let cds_seq_str := Str.upper cds_seq in
          if negb (issubset_valid cds_seq_str) then
            (warn verbose (NonATCG locus_tag (String.length cds_seq)) st, None)
          else
            let cds_len := String.length cds_seq in
            let truncated_len := (cds_len / 3) * 3 in
            let st := if decide (cds_len ≠ truncated_len)
                      then warn verbose (Truncating locus_tag cds_len truncated_len) st
                      else st in
            ({| codon_aa_counts :=
                  count_codons cds_seq_str translation_str truncated_len
                    (codon_aa_counts st);
                total_cds_processed := total_cds_processed st;
                printed := printed st |}, None)
      end
  else (st, None).

(** The loop over the features of a record, line 63: an exception ends it. *)
Fixpoint process_features (verbose : bool) (record_seq : string)
    (fs : list SeqFeature) (st : state) : state * option exn :=
  match fs with
  | [] => (st, None)
  | feature :: fs =>
      match process_feature verbose record_seq feature st with
      | (st, None) => process_features verbose record_seq fs st
      | (st, Some e) => (st, Some e)
      end
  end.

(** The loop over the records, line 58, for the records the reader yields:
    an exception of the body ends it. *)
Fixpoint process_records (verbose : bool) (records : list SeqRecord) (st : state)
    : state * option exn :=
  match records with
  | [] => (st, None)
  | record :: records =>
      match process_features verbose (seq record) (features record) st with
      | (st, None) => process_records verbose records st
      | (st, Some e) => (st, Some e)
      end
  end.

(** The [try] block, lines 54-130: the exception is that of the body, or
    else that of the reader after the last record it yields. *)
Definition aggregate (verbose : bool) (src : source) : state * option exn :=
  match process_records verbose (yielded src) initial with
  | (st, None) => (st, raised src)
  | (st, Some e) => (st, Some e)
  end.

(** [calculate_codon_frequency_to_df]: both handlers return [None], whatever
    was counted. *)
Definition calculate_codon_frequency_to_df (src : source)
    (min_freq_threshold : Qc) (verbose : bool) : option (list row) :=
  match aggregate verbose src with
  | (_, Some FileNotFoundError) => None
  | (_, Some Exception) => None
  | (st, None) => build_report (codon_aa_counts st) min_freq_threshold
  end.

End Try.

(** The feature with the sequence in place of the extraction that gives it
    (and no base where the extraction raises). *)
Definition forget_feature (f : Try.SeqFeature) : SeqFeature :=
  {| type := Try.type f;
     qualifiers := Try.qualifiers f;
     extract := λ record_seq,
       match Try.extract f record_seq with
       | inr cds_seq => cds_seq
       | inl _ => ""
       end |}.

Definition forget_record (r : Try.SeqRecord) : SeqRecord :=
  {| seq := Try.seq r; features := forget_feature <$> Try.features r |}.

(** A feature whose extraction never raises. *)
Definition extracting (f : SeqFeature) : Try.SeqFeature :=
  {| Try.type := type f;
     Try.qualifiers := qualifiers f;
     Try.extract := λ record_seq, inr (extract f record_seq) |}.

Definition extracting_record (r : SeqRecord) : Try.SeqRecord :=
  {| Try.seq := seq r; Try.features := extracting <$> features r |}.

(** The body of the loop raises at the feature: it is a CDS feature with a
    translation and without [pseudo], and its extraction raises. *)
Definition raises_at (record_seq : string) (f : Try.SeqFeature) : Prop :=
  eligible (forget_feature f)
  ∧ match Try.extract f record_seq with inl _ => True | inr _ => False end.

Global Instance raises_at_dec record_seq f : Decision (raises_at record_seq f).
Proof. unfold raises_at. destruct (Try.extract f record_seq); apply _. Defined.

(** The body of the loops raises at a feature of one of the records. *)
Definition body_raises (records : list Try.SeqRecord) : Prop :=
  Exists (λ r, Exists (raises_at (Try.seq r)) (Try.features r)) records.

(** A CDS feature on a record whose sequence is not in the file: its
    extraction gives a sequence of undefined content, and [str] raises. *)
Definition undefined_feature : Try.SeqFeature :=
  {| Try.type := "CDS";
     Try.qualifiers := {[ "locus_tag" := ("UNDEF", []); "translation" := ("MA", []) ]};
     Try.extract := λ record_seq, inl Exception |}.

Definition undefined_record : Try.SeqRecord :=
  {| Try.seq := ""; Try.features := [undefined_feature] |}.

(** A file read without an error of the reader, whose second record has no
    sequence. *)
Definition undefined_source : Try.source :=
  {| Try.yielded := [extracting_record test_record; undefined_record];
     Try.raised := None |}.

(** A path without a file, a file that is malformed after its first
    record, and the file of the test suite. *)
Definition missing_source : Try.source :=
  {| Try.yielded := []; Try.raised := Some FileNotFoundError |}.

Definition malformed_source : Try.source :=
  {| Try.yielded := [extracting_record test_record]; Try.raised := Some Exception |}.

Definition readable_source : Try.source :=
  {| Try.yielded := [extracting_record test_record]; Try.raised := None |}.

(** * Properties *)

(** ** The definitions on small inputs *)

Example range_codons : range 0 9 3 = [0; 3; 6] ∧ range 0 0 3 = [].
Proof. split; reflexivity. Qed.

Example upper_mixed : Str.upper "atgNn-x" = "ATGNN-X".
Proof. reflexivity. Qed.

Example slice_clamped : Str.slice "ATGGC" 3 6 = "GC".
Proof. reflexivity. Qed.

Example ambiguous_base : issubset_valid (Str.upper "atgn") = false.
Proof. vm_compute. reflexivity. Qed.

Example stop_event : codon_event "ATGGCTTAA" "MA" 6 = ("TAA", "*", "STOP").
Proof. reflexivity. Qed.

Example start_event : codon_event "ATGGCTTAA" "MA" 0 = ("ATG", "M", "START").
Proof. reflexivity. Qed.

Example special_type_order :
  key_compare ("ATG", "M", "") ("ATG", "M", "START") = Lt
  ∧ key_compare ("ATG", "M", "START") ("ATG", "M", "STOP") = Lt
  ∧ key_compare ("GGT", "*", "STOP") ("GGT", "G", "") = Lt.
Proof. repeat split; reflexivity. Qed.

Example warnings_of_ten_record :
  printed (process_record true ten_record initial) =
  [Truncating "TEN" 10 9; SkippingPseudogene "?"; NonATCG "AMB" 6]
  ∧ total_cds_processed (process_record true ten_record initial) = 2.
Proof. split; vm_compute; reflexivity. Qed.

(** ** Orders given by a comparison function *)

Section ordering.
Context {A B : Type} (cmpA : A → A → comparison) (cmpB : B → B → comparison).
Context `{!Ordering cmpA, !Ordering cmpB}.

Lemma cmp_refl (x : A) : cmpA x x = Eq.
Proof. by apply cmp_eq. Qed.

Lemma cmp_gt_lt (x y : A) : cmpA x y = Gt ↔ cmpA y x = Lt.
Proof. rewrite (cmp_opp (cmp:=cmpA) x y). destruct (cmpA x y); simpl; split; congruence. Qed.

Lemma cmp_le_trans (x y z : A) : cmpA x y ≠ Gt → cmpA y z ≠ Gt → cmpA x z ≠ Gt.
Proof.
  intros Hxy Hyz Hxz. apply cmp_gt_lt in Hxz.
  destruct (cmpA x y) eqn:E1; [apply cmp_eq in E1 as ->| |done].
  - apply Hyz. by apply cmp_gt_lt.
  - destruct (cmpA y z) eqn:E2; [apply cmp_eq in E2 as ->| |done].
    + rewrite (cmp_opp (cmp:=cmpA)), E1 in Hxz; discriminate.
    + pose proof (cmp_trans _ _ _ E2 Hxz) as E3.
      rewrite (cmp_opp (cmp:=cmpA)), E1 in E3; discriminate.
Qed.

Lemma cmp_le_total (x y : A) : cmpA x y ≠ Gt ∨ cmpA y x ≠ Gt.
Proof. rewrite (cmp_opp (cmp:=cmpA) x y). destruct (cmpA x y); simpl; auto. Qed.

Lemma cmp_le_antisym (x y : A) : cmpA x y ≠ Gt → cmpA y x ≠ Gt → x = y.
Proof.
  rewrite (cmp_opp (cmp:=cmpA) x y). intros H1 H2. apply cmp_eq.
  destruct (cmpA x y); simpl in *; congruence.
Qed.

Global Instance cmp_pair_ordering : Ordering (cmp_pair cmpA cmpB).
Proof.
  split; unfold cmp_pair.
  - intros [a1 b1] [a2 b2]; simpl. split.
    + destruct (cmpA a1 a2) eqn:E; simpl; try done.
      apply cmp_eq in E as ->. intros ->%cmp_eq. done.
    + intros [= -> ->]. rewrite cmp_refl. simpl. by apply cmp_eq.
  - intros [a1 b1] [a2 b2]; simpl.
    rewrite (cmp_opp (cmp:=cmpA) a1 a2), (cmp_opp (cmp:=cmpB) b1 b2).
    by destruct (cmpA a1 a2).
  - intros [a1 b1] [a2 b2] [a3 b3]; simpl.
    destruct (cmpA a1 a2) eqn:E1; simpl; try done.
    + apply cmp_eq in E1 as ->.
      destruct (cmpA a2 a3) eqn:E2; simpl; try done.
      apply cmp_trans.
    + intros _. destruct (cmpA a2 a3) eqn:E2; simpl; try done.
      * apply cmp_eq in E2 as <-. by rewrite E1.
      * by rewrite (cmp_trans _ _ _ E1 E2).
Qed.
End ordering.

Global Instance ascii_ordering : Ordering Ascii.compare.
Proof.
  split.
  - intros x y. split; [apply Ascii.compare_eq_iff|].
    intros ->. unfold Ascii.compare. apply N.compare_refl.
  - intros x y. apply Ascii.compare_antisym.
  - intros x y z. unfold Ascii.compare. rewrite !N.compare_lt_iff. lia.
Qed.

Global Instance string_ordering : Ordering String.compare.
Proof.
  split.
  - intros x y. split; [apply String.compare_eq_iff|].
    intros ->. induction y as [|c y IH]; simpl; [done|].
    by rewrite (cmp_refl Ascii.compare).
  - intros x y. apply String.compare_antisym.
  - intros x. induction x as [|a x IH]; intros [|b y] [|c z]; simpl; try done.
    destruct (Ascii.compare a b) eqn:E1; try done.
    + apply cmp_eq in E1 as ->.
      destruct (Ascii.compare b c); try done. apply IH.
    + intros _. destruct (Ascii.compare b c) eqn:E2; try done.
      * apply cmp_eq in E2 as <-. by rewrite E1.
      * by rewrite (cmp_trans _ _ _ E1 E2).
Qed.

Global Instance nat_ordering : Ordering Nat.compare.
Proof.
  split.
  - apply Nat.compare_eq_iff.
  - intros x y. apply Nat.compare_antisym.
  - intros x y z. rewrite !Nat.compare_lt_iff. lia.
Qed.

Lemma ordering_ext {A} (cmp1 cmp2 : A → A → comparison) :
  (∀ x y, cmp1 x y = cmp2 x y) → Ordering cmp1 → Ordering cmp2.
Proof.
  intros E [H1 H2 H3]. split.
  - intros x y. rewrite <-E. apply H1.
  - intros x y. rewrite <-!E. apply H2.
  - intros x y z. rewrite <-!E. apply H3.
Qed.

Global Instance key_ordering : Ordering key_compare.
Proof.
  apply (ordering_ext
    (cmp_pair (cmp_pair String.compare String.compare) String.compare)); [|apply _].
  intros [[c1 a1] s1] [[c2 a2] s2]. unfold key_compare, cmp_pair; simpl.
  by destruct (String.compare c1 c2).
Qed.

Global Instance item_ordering : Ordering item_compare.
Proof. change item_compare with (cmp_pair key_compare Nat.compare). apply _. Qed.

Global Instance item_le_trans : Transitive item_le.
Proof. intros x y z. apply (cmp_le_trans item_compare). Qed.

Global Instance item_le_total : Total item_le.
Proof. intros x y. apply (cmp_le_total item_compare). Qed.

Global Instance item_le_antisymm : AntiSymm (=) item_le.
Proof. intros x y. apply (cmp_le_antisym item_compare). Qed.

(** ** Strings *)

Lemma upper_length (s : string) : String.length (Str.upper s) = String.length s.
Proof. induction s as [|c s IH]; simpl; congruence. Qed.

Lemma substring_length (s : string) (i n : nat) :
  i + n ≤ String.length s → String.length (substring i n s) = n.
Proof.
  revert i n. induction s as [|c s IH]; intros [|i] [|n]; simpl; try lia.
  - intros. rewrite IH; lia.
  - intros. apply (IH i 0). lia.
  - intros. apply (IH i (S n)). lia.
Qed.

Lemma substring_chars (s : string) (i n : nat) (c : ascii) :
  c ∈ Str.chars (substring i n s) → c ∈ Str.chars s.
Proof.
  revert i n. induction s as [|a s IH]; intros [|i] [|n]; simpl;
    rewrite ?elem_of_nil, ?elem_of_cons; try tauto.
  - intros [->|H]; eauto.
  - eauto.
  - eauto.
Qed.

Lemma get_is_Some (s : string) (i : nat) :
  i < String.length s → is_Some (String.get i s).
Proof.
  revert i. induction s as [|a s IH]; intros [|i]; simpl; try lia; eauto.
  intros. apply IH. lia.
Qed.

Lemma index_length (s : string) (i : nat) :
  i < String.length s → String.length (Str.index s i) = 1.
Proof. intros [c Hc]%get_is_Some. unfold Str.index. by rewrite Hc. Qed.

Lemma elem_of_VALID_BASES (c : ascii) :
  c ∈ VALID_BASES ↔ c = "A"%char ∨ c = "T"%char ∨ c = "C"%char ∨ c = "G"%char.
Proof.
  unfold VALID_BASES.
  rewrite elem_of_list_to_set. simpl.
  rewrite !elem_of_cons, elem_of_nil. tauto.
Qed.

Lemma issubset_valid_spec (s : string) :
  issubset_valid s = true ↔ ∀ c, c ∈ Str.chars s → c ∈ VALID_BASES.
Proof.
  unfold issubset_valid. rewrite bool_decide_eq_true. set_solver.
Qed.

(** ** The counter *)

Lemma sum_values_sum_list (counts : CodonAACounter) :
  sum_values counts = sum_list ((map_to_list counts).*2).
Proof.
  unfold sum_values. rewrite map_fold_foldr.
  induction (map_to_list counts) as [|[k v] l IH]; csimpl; [done|].
  rewrite IH. lia.
Qed.

Lemma sum_values_empty : sum_values ∅ = 0.
Proof. apply map_fold_empty. Qed.

Lemma sum_values_insert (counts : CodonAACounter) (k : CodonAAKey) (v : nat) :
  counts !! k = None → sum_values (<[k:=v]> counts) = v + sum_values counts.
Proof.
  intros Hk. rewrite !sum_values_sum_list.
  rewrite (map_to_list_insert _ _ _ Hk). by rewrite fmap_cons.
Qed.

Lemma sum_values_incr (counts : CodonAACounter) (k : CodonAAKey) :
  sum_values (incr k counts) = S (sum_values counts).
Proof.
  unfold incr. destruct (counts !! k) as [v|] eqn:Hk; simpl.
  - rewrite <-(insert_delete_id counts k v Hk) at 2.
    rewrite <-(insert_delete_eq counts).
    rewrite !sum_values_insert by apply lookup_delete_eq. lia.
  - by rewrite sum_values_insert.
Qed.

Lemma range_0_length (n : nat) : length (range 0 (n / 3 * 3) 3) = n / 3.
Proof.
  unfold range. rewrite length_fmap, length_seq.
  replace (n / 3 * 3 - 0 + 3 - 1) with (2 + n / 3 * 3) by lia.
  rewrite Nat.div_add by lia. simpl. lia.
Qed.

Lemma elem_of_range_0 (n i : nat) :
  i ∈ range 0 (n / 3 * 3) 3 ↔ ∃ k, i = 3 * k ∧ k < n / 3.
Proof.
  unfold range. rewrite list_elem_of_fmap.
  replace (n / 3 * 3 - 0 + 3 - 1) with (2 + n / 3 * 3) by lia.
  rewrite Nat.div_add by lia. simpl.
  split.
  - intros (k & -> & Hk). apply elem_of_seq in Hk. exists k. lia.
  - intros (k & -> & Hk). exists k. rewrite elem_of_seq. lia.
Qed.

Lemma sum_values_count_codons (s t : string) (n : nat) (counts : CodonAACounter) :
  sum_values (count_codons s t n counts) = sum_values counts + length (range 0 n 3).
Proof.
  unfold count_codons. revert counts.
  induction (range 0 n 3) as [|i l IH]; intros counts; simpl; [lia|].
  rewrite IH, sum_values_incr. lia.
Qed.

(** ** Counted and skipped features *)

Lemma lacks_translation_qualifier (f : SeqFeature) :
  Spec.lacks_translation f ↔ qualifier f "translation" "" = "".
Proof.
  unfold Spec.lacks_translation, qualifier.
  destruct (qualifiers f !! "translation") as [[v ?]|]; tauto.
Qed.

Lemma only_ATCG_issubset (s : string) :
  Spec.only_ATCG s ↔ issubset_valid (Str.upper s) = true.
Proof.
  unfold Spec.only_ATCG. rewrite issubset_valid_spec, list.Forall_forall.
  split; intros H c Hc.
  - apply elem_of_VALID_BASES, H, Hc.
  - apply elem_of_VALID_BASES, H, Hc.
Qed.

Lemma warn_counts (verbose : bool) (w : warning) (st : state) :
  codon_aa_counts (warn verbose w st) = codon_aa_counts st.
Proof. by destruct verbose. Qed.

(** The counter after a feature: unchanged when it is skipped, the codon
    loop on the upper-cased sequence when it is counted. *)
Lemma process_feature_counts (verbose : bool) (record_seq : string)
    (f : SeqFeature) (st : state) :
  codon_aa_counts (process_feature verbose record_seq f st) =
  if decide (Spec.counted record_seq f)
  then count_codons (Str.upper (extract f record_seq)) (qualifier f "translation" "")
         (String.length (extract f record_seq) / 3 * 3) (codon_aa_counts st)
  else codon_aa_counts st.
Proof.
  unfold process_feature.
  destruct (decide (Spec.counted record_seq f)) as [(Ht & Hq & Hp & Hv)|Hn].
  - rewrite lacks_translation_qualifier in Hq. rewrite only_ATCG_issubset in Hv.
    rewrite (decide_True _ _ Ht), (decide_False _ _ Hq), (decide_False _ _ Hp), Hv.
    simpl. by destruct (decide _); simpl; rewrite ?warn_counts.
  - destruct (decide (type f = "CDS")) as [Ht|Ht]; [|done].
    destruct (decide (qualifier f "translation" "" = "")) as [Hq|Hq];
      [by rewrite warn_counts|].
    destruct (decide (is_Some (qualifiers f !! "pseudo"))) as [Hp|Hp];
      [by rewrite warn_counts|].
    destruct (issubset_valid (Str.upper (extract f record_seq))) eqn:Hv; simpl;
      [|by rewrite warn_counts].
    destruct Hn. unfold Spec.counted, Spec.pseudo.
    rewrite lacks_translation_qualifier, only_ATCG_issubset. tauto.
Qed.

Lemma process_feature_sum (verbose : bool) (record_seq : string)
    (f : SeqFeature) (st : state) :
  sum_values (codon_aa_counts (process_feature verbose record_seq f st)) =
  sum_values (codon_aa_counts st) + Spec.complete_codons record_seq f.
Proof.
  rewrite process_feature_counts. unfold Spec.complete_codons.
  destruct (decide _); [|lia].
  rewrite sum_values_count_codons. f_equal. apply range_0_length.
Qed.

Lemma process_record_sum (verbose : bool) (r : SeqRecord) (st : state) :
  sum_values (codon_aa_counts (process_record verbose r st)) =
  sum_values (codon_aa_counts st)
  + sum_list_with (Spec.complete_codons (seq r)) (features r).
Proof.
  unfold process_record. revert st.
  induction (features r) as [|f fs IH]; intros st; simpl; [lia|].
  rewrite IH, process_feature_sum. lia.
Qed.

Lemma process_records_sum (verbose : bool) (records : list SeqRecord) (st : state) :
  sum_values (codon_aa_counts (process_records verbose records st)) =
  sum_values (codon_aa_counts st) + Spec.total_complete_codons records.
Proof.
  unfold process_records, Spec.total_complete_codons. revert st.
  induction records as [|r rs IH]; intros st; simpl; [lia|].
  rewrite IH, process_record_sum. lia.
Qed.

(** ** Truncation to complete codons *)

Lemma upper_substring (s : string) (i n : nat) :
  Str.upper (substring i n s) = substring i n (Str.upper s).
Proof.
  revert i n. induction s as [|c s IH]; intros [|i] [|n]; simpl; try done.
  - by rewrite IH.
Qed.

Lemma substring_prefix (s : string) (i k n : nat) :
  i + k ≤ n → substring i k (substring 0 n s) = substring i k s.
Proof.
  revert i k n. induction s as [|c s IH]; intros i k n Hn.
  - by destruct n, i, k.
  - destruct n as [|n].
    { assert (i = 0 ∧ k = 0) as [-> ->] by lia. done. }
    destruct i as [|i]; simpl.
    + destruct k as [|k]; [done|]. f_equal. apply (IH 0 k n). lia.
    + apply IH. lia.
Qed.

Lemma codon_event_prefix (s t : string) (i n : nat) :
  i + 3 ≤ n → codon_event (substring 0 n s) t i = codon_event s t i.
Proof.
  intros Hi. unfold codon_event, Str.slice.
  replace (i + 3 - i) with 3 by lia.
  by rewrite substring_prefix.
Qed.

Lemma foldl_ext_in {A B} (f g : A → B → A) (a : A) (l : list B) :
  (∀ a b, b ∈ l → f a b = g a b) → foldl f a l = foldl g a l.
Proof.
  revert a. induction l as [|b l IH]; intros a Hfg; simpl; [done|].
  rewrite Hfg by left. apply IH. intros. apply Hfg. by right.
Qed.

Lemma count_codons_prefix (s t : string) (n : nat) (counts : CodonAACounter) :
  count_codons (substring 0 (n / 3 * 3) s) t (n / 3 * 3) counts =
  count_codons s t (n / 3 * 3) counts.
Proof.
  unfold count_codons. apply foldl_ext_in. intros c i Hi.
  apply elem_of_range_0 in Hi as (k & -> & Hk).
  rewrite codon_event_prefix; [done|lia].
Qed.

Lemma truncated_length (f : SeqFeature) (record_seq : string) :
  String.length (extract (Spec.truncated f) record_seq) =
  String.length (extract f record_seq) / 3 * 3.
Proof.
  unfold Spec.truncated; cbn [extract]. apply substring_length.
  pose proof (Nat.div_mod_eq (String.length (extract f record_seq)) 3). lia.
Qed.

Lemma truncated_counted (f : SeqFeature) (record_seq : string) :
  Spec.counted record_seq f → Spec.counted record_seq (Spec.truncated f).
Proof.
  unfold Spec.counted, Spec.lacks_translation, Spec.pseudo, Spec.only_ATCG.
  intros (Ht & Hq & Hp & Hv). repeat split; try done.
  cbn [Spec.truncated extract]. rewrite upper_substring.
  rewrite list.Forall_forall in Hv |- *.
  intros c Hc. eapply Hv, substring_chars, Hc.
Qed.

(** Cutting the partial codon off the extracted sequence of a counted
    feature does not change what the feature adds to the counter. *)
Lemma process_feature_truncated (verbose : bool) (record_seq : string)
    (f : SeqFeature) (st : state) :
  Spec.counted record_seq f →
  codon_aa_counts (process_feature verbose record_seq (Spec.truncated f) st) =
  codon_aa_counts (process_feature verbose record_seq f st).
Proof.
  intros Hc. rewrite !process_feature_counts.
  rewrite (decide_True _ _ Hc), (decide_True _ _ (truncated_counted _ _ Hc)).
  rewrite truncated_length.
  set (n := String.length (extract f record_seq)).
  replace (n / 3 * 3 / 3 * 3) with (n / 3 * 3)
    by (rewrite Nat.div_mul; lia).
  unfold Spec.truncated at 1; cbn [extract]. rewrite upper_substring. fold n.
  apply count_codons_prefix.
Qed.

(** ** The scenario of the test suite *)

Lemma mgg_report : build_report mgg_counts 0 = Some mgg_rows.
Proof.
  unfold build_report.
  assert (sum_values mgg_counts = 3) as -> by (vm_compute; reflexivity).
  assert (sorted_items mgg_counts =
    [ (("ATG", "M", "START"), 1); (("GCT", "G", ""), 1); (("GGT", "G", ""), 1) ]) as ->
    by (vm_compute; reflexivity).
  rewrite decide_False by lia. cbn [fmap list_fmap make_row].
  rewrite decide_False by (intros H; vm_compute in H; discriminate).
  assert ((Qc_of_nat 1 / Qc_of_nat 3 * Qc_of_nat 100)%Qc = Q2Qc (100 # 3)) as ->
    by (apply Qc_is_canon; reflexivity).
  unfold mgg_rows. repeat f_equal.
Qed.

(** C1.  A source with a single CDS feature whose extracted sequence is
    ATGGCTGGT and whose translation is "MGG" is aggregated to exactly three
    keys, each counted once: (ATG, M, START), (GCT, G, ordinary) and
    (GGT, G, ordinary); the total is 3, and the report has these three rows,
    each with the frequency 100/3 percent. *)
Theorem single_cds_mgg (verbose : bool) (r : SeqRecord) (f : SeqFeature)
    (more : list string) :
  features r = [f] →
  type f = "CDS" →
  qualifiers f !! "translation" = Some ("MGG", more) →
  qualifiers f !! "pseudo" = None →
  extract f (seq r) = "ATGGCTGGT" →
  let src := {| yielded := [r]; raised := None |} in
  (∃ st, aggregate verbose src = inr st
         ∧ codon_aa_counts st = mgg_counts
         ∧ sum_values (codon_aa_counts st) = 3)
  ∧ calculate_codon_frequency_to_df src 0 verbose = Some mgg_rows
  ∧ Forall (λ row, Count row = 1 ∧ Freq row = Q2Qc (100 # 3)) mgg_rows.
Proof.
  intros Hfs Ht Htr Hps Hex src.
  assert (codon_aa_counts (process_records verbose [r] initial) = mgg_counts) as Hc.
  { unfold process_records. cbn [foldl]. unfold process_record.
    rewrite Hfs. cbn [foldl].
    rewrite process_feature_counts, decide_True.
    - unfold qualifier. rewrite Htr, Hex.
      apply map_to_list_inj. vm_compute. reflexivity.
    - unfold Spec.counted, Spec.lacks_translation, Spec.pseudo.
      rewrite Htr, Hps, Hex. repeat split; try done.
      apply only_ATCG_issubset. vm_compute. reflexivity. }
  split; [|split].
  - eexists. split; [reflexivity|]. cbn [yielded src]. rewrite Hc. split; [done|].
    vm_compute. reflexivity.
  - unfold calculate_codon_frequency_to_df, aggregate. cbn [raised yielded src].
    rewrite Hc. apply mgg_report.
  - unfold mgg_rows. repeat constructor.
Qed.

Lemma single_cds_mgg_witness :
  (∃ st, aggregate true test_source = inr st
         ∧ codon_aa_counts st = mgg_counts
         ∧ sum_values (codon_aa_counts st) = 3)
  ∧ calculate_codon_frequency_to_df test_source 0 true = Some mgg_rows
  ∧ Forall (λ row, Count row = 1 ∧ Freq row = Q2Qc (100 # 3)) mgg_rows.
Proof.
  apply (single_cds_mgg true test_record test_feature []); reflexivity.
Defined.

(** ** Conservation of the count *)

(** C2.  After a run of the aggregation the values of the counter sum to the
    number of complete codon positions of the features that are not skipped,
    [len // 3] for each of them; a counted feature of 10 bases adds 3, and
    the same keys as its first 9 bases alone. *)
Theorem count_conservation (verbose : bool) (src : source) (st : state) :
  aggregate verbose src = inr st →
  sum_values (codon_aa_counts st) = Spec.total_complete_codons (yielded src)
  ∧ ∀ (r : SeqRecord) (f : SeqFeature) (st0 : state),
      r ∈ yielded src → f ∈ features r →
      Spec.counted (seq r) f →
      String.length (extract f (seq r)) = 10 →
      Spec.complete_codons (seq r) f = 3
      ∧ sum_values (codon_aa_counts (process_feature verbose (seq r) f st0)) =
        sum_values (codon_aa_counts st0) + 3
      ∧ extract (Spec.truncated f) (seq r) = substring 0 9 (extract f (seq r))
      ∧ codon_aa_counts (process_feature verbose (seq r) f st0) =
        codon_aa_counts (process_feature verbose (seq r) (Spec.truncated f) st0).
Proof.
  unfold aggregate. destruct (raised src); [done|]. intros [= <-]. split.
  - rewrite process_records_sum. unfold initial; cbn [codon_aa_counts].
    rewrite sum_values_empty. lia.
  - intros r f st0 _ _ Hc Hlen.
    assert (Spec.complete_codons (seq r) f = 3) as H3.
    { unfold Spec.complete_codons. rewrite (decide_True _ _ Hc), Hlen. done. }
    repeat split.
    + done.
    + by rewrite process_feature_sum, H3.
    + unfold Spec.truncated; cbn [extract]. by rewrite Hlen.
    + by rewrite process_feature_truncated.
Qed.

Lemma count_conservation_witness :
  ∃ st, aggregate true ten_source = inr st
        ∧ sum_values (codon_aa_counts st) = 6
        ∧ Spec.complete_codons (seq ten_record) ten_feature = 3
        ∧ codon_aa_counts (process_feature true (seq ten_record) ten_feature initial) =
          codon_aa_counts
            (process_feature true (seq ten_record) (Spec.truncated ten_feature) initial).
Proof.
  eexists. split; [reflexivity|].
  destruct (count_conservation true ten_source _ eq_refl) as [Hsum Hten].
  destruct (Hten ten_record ten_feature initial) as (H3 & _ & _ & Htr).
  - cbn [ten_source yielded]. rewrite !elem_of_cons. auto.
  - cbn [ten_record features]. rewrite !elem_of_cons. auto.
  - compute_done.
  - reflexivity.
  - rewrite Hsum. split; [vm_compute; reflexivity|].
    split; [exact H3|exact Htr].
Defined.

(** ** Defective features *)

(** What a feature adds depends on the counter only. *)
Lemma process_feature_counts_ext (verbose : bool) (record_seq : string)
    (f : SeqFeature) (st1 st2 : state) :
  codon_aa_counts st1 = codon_aa_counts st2 →
  codon_aa_counts (process_feature verbose record_seq f st1) =
  codon_aa_counts (process_feature verbose record_seq f st2).
Proof. intros E. rewrite !process_feature_counts, E. done. Qed.

Lemma process_features_counts_ext (verbose : bool) (record_seq : string)
    (fs : list SeqFeature) (st1 st2 : state) :
  codon_aa_counts st1 = codon_aa_counts st2 →
  codon_aa_counts (foldl (λ st f, process_feature verbose record_seq f st) st1 fs) =
  codon_aa_counts (foldl (λ st f, process_feature verbose record_seq f st) st2 fs).
Proof.
  revert st1 st2. induction fs as [|f fs IH]; intros st1 st2 E; simpl; [done|].
  by apply IH, process_feature_counts_ext.
Qed.

Lemma process_records_counts_ext (verbose : bool) (records : list SeqRecord)
    (st1 st2 : state) :
  codon_aa_counts st1 = codon_aa_counts st2 →
  codon_aa_counts (process_records verbose records st1) =
  codon_aa_counts (process_records verbose records st2).
Proof.
  unfold process_records. revert st1 st2.
  induction records as [|r rs IH]; intros st1 st2 E; simpl; [done|].
  by apply IH, process_features_counts_ext.
Qed.

(** Two lists of features that add the same to every counter can be
    exchanged anywhere in the input. *)
Lemma process_records_exchange (verbose : bool) (before after : list SeqRecord)
    (r : SeqRecord) (fs1 fs2 mid mid' : list SeqFeature) (st : state) :
  (∀ st, codon_aa_counts
           (foldl (λ st f, process_feature verbose (seq r) f st) st mid) =
         codon_aa_counts
           (foldl (λ st f, process_feature verbose (seq r) f st) st mid')) →
  codon_aa_counts
    (process_records verbose
       (before ++ with_features r (fs1 ++ mid ++ fs2) :: after) st) =
  codon_aa_counts
    (process_records verbose
       (before ++ with_features r (fs1 ++ mid' ++ fs2) :: after) st).
Proof.
  intros Hmid. unfold process_records. rewrite !foldl_app. cbn [foldl].
  apply process_records_counts_ext.
  unfold process_record. cbn [with_features seq features].
  rewrite !foldl_app. apply process_features_counts_ext, Hmid.
Qed.

Lemma calculate_exchange (verbose : bool) (e : option exn) (t : Qc)
    (records records' : list SeqRecord) :
  codon_aa_counts (process_records verbose records initial) =
  codon_aa_counts (process_records verbose records' initial) →
  calculate_codon_frequency_to_df {| yielded := records; raised := e |} t verbose =
  calculate_codon_frequency_to_df {| yielded := records'; raised := e |} t verbose.
Proof.
  intros E. unfold calculate_codon_frequency_to_df, aggregate. cbn [yielded raised].
  destruct e as [[]|]; [done..|]. by rewrite E.
Qed.

(** C3.  A defect of one CDS feature is not fatal.  A feature without a
    translation, with a [pseudo] qualifier or with a character other than
    A, T, C, G in its sequence leaves the counter as it is, and the run gives
    the result it gives without the feature; a counted feature adds what its
    sequence cut to complete codons adds, and the run gives the result it
    gives with the sequence so cut. *)
Theorem defects_not_fatal (verbose : bool) (e : option exn) (t : Qc)
    (before after : list SeqRecord) (r : SeqRecord)
    (fs1 fs2 : list SeqFeature) (f : SeqFeature) :
  let run mid :=
    calculate_codon_frequency_to_df
      {| yielded := before ++ with_features r (fs1 ++ mid ++ fs2) :: after;
         raised := e |} t verbose in
  type f = "CDS" →
  (Spec.lacks_translation f ∨ Spec.pseudo f ∨ ¬ Spec.only_ATCG (extract f (seq r)) →
     (∀ st, codon_aa_counts (process_feature verbose (seq r) f st) = codon_aa_counts st)
     ∧ run [f] = run [])
  ∧ (Spec.counted (seq r) f →
     (∀ st, codon_aa_counts (process_feature verbose (seq r) f st) =
            count_codons (Str.upper (extract (Spec.truncated f) (seq r)))
              (qualifier f "translation" "")
              (String.length (extract (Spec.truncated f) (seq r)))
              (codon_aa_counts st))
     ∧ run [f] = run [Spec.truncated f]).
Proof.
  intros run Ht. split.
  - intros Hdef.
    assert (∀ st, codon_aa_counts (process_feature verbose (seq r) f st) =
                  codon_aa_counts st) as Hskip.
    { intros st. rewrite process_feature_counts, decide_False; [done|].
      unfold Spec.counted. tauto. }
    split; [done|].
    apply calculate_exchange, process_records_exchange. intros st. apply Hskip.
  - intros Hc. split.
    + intros st. rewrite <-process_feature_truncated by done.
      rewrite process_feature_counts, (decide_True _ _ (truncated_counted _ _ Hc)).
      rewrite (truncated_length f) at 2.
      rewrite truncated_length, Nat.div_mul by lia. done.
    + apply calculate_exchange, process_records_exchange. intros st. cbn [foldl].
      by rewrite process_feature_truncated.
Qed.

Lemma defects_not_fatal_witness :
  calculate_codon_frequency_to_df ten_source 0 true =
  calculate_codon_frequency_to_df
    {| yielded :=
         [test_record;
          with_features ten_record [gene_feature; ten_feature; ambiguous_feature]];
       raised := None |} 0 true
  ∧ calculate_codon_frequency_to_df ten_source 0 true =
    calculate_codon_frequency_to_df
      {| yielded :=
           [test_record;
            with_features ten_record [gene_feature; ten_feature; pseudo_feature]];
         raised := None |} 0 true
  ∧ calculate_codon_frequency_to_df ten_source 0 true =
    calculate_codon_frequency_to_df
      {| yielded :=
           [test_record;
            with_features ten_record
              [gene_feature; Spec.truncated ten_feature; pseudo_feature;
               ambiguous_feature]];
         raised := None |} 0 true.
Proof.
  split; [|split].
  - refine (proj2 (proj1 (defects_not_fatal true None 0 [test_record] [] ten_record
                            [gene_feature; ten_feature] [ambiguous_feature]
                            pseudo_feature eq_refl) _)).
    right; left. compute_done.
  - refine (proj2 (proj1 (defects_not_fatal true None 0 [test_record] [] ten_record
                            [gene_feature; ten_feature; pseudo_feature] []
                            ambiguous_feature eq_refl) _)).
    right; right. compute_done.
  - refine (proj2 (proj2 (defects_not_fatal true None 0 [test_record] [] ten_record
                            [gene_feature] [pseudo_feature; ambiguous_feature]
                            ten_feature eq_refl) _)).
    compute_done.
Defined.

(** ** The keys that are counted *)

Lemma incr_lookup_is_Some (counts : CodonAACounter) (k key : CodonAAKey) :
  is_Some (incr k counts !! key) ↔ key = k ∨ is_Some (counts !! key).
Proof.
  unfold incr. destruct (decide (k = key)) as [->|Hne].
  - rewrite lookup_insert_eq. split; eauto.
  - rewrite lookup_insert_ne by done. split; [auto|]. by intros [->|?].
Qed.

Lemma count_codons_lookup (s t : string) (n : nat) (counts : CodonAACounter)
    (key : CodonAAKey) :
  is_Some (count_codons s t n counts !! key) ↔
  is_Some (counts !! key) ∨ ∃ i, i ∈ range 0 n 3 ∧ key = codon_event s t i.
Proof.
  unfold count_codons. revert counts.
  induction (range 0 n 3) as [|j l IH]; intros counts; simpl.
  - split; [auto|]. intros [?|(i & Hi & _)]; [done|]. by apply elem_of_nil in Hi.
  - rewrite IH, incr_lookup_is_Some. setoid_rewrite elem_of_cons. split.
    + intros [[->|?]|(i & Hi & ->)]; eauto.
    + intros [?|(i & [->|Hi] & ->)]; eauto.
Qed.

Lemma process_feature_lookup (verbose : bool) (record_seq : string) (f : SeqFeature)
    (st : state) (key : CodonAAKey) :
  is_Some (codon_aa_counts (process_feature verbose record_seq f st) !! key) ↔
  is_Some (codon_aa_counts st !! key)
  ∨ (Spec.counted record_seq f
     ∧ ∃ i, i ∈ range 0 (String.length (extract f record_seq) / 3 * 3) 3
            ∧ key = codon_event (Str.upper (extract f record_seq))
                      (qualifier f "translation" "") i).
Proof.
  rewrite process_feature_counts. destruct (decide _) as [Hc|Hc].
  - rewrite count_codons_lookup. tauto.
  - tauto.
Qed.

Lemma process_record_lookup (verbose : bool) (r : SeqRecord) (st : state)
    (key : CodonAAKey) :
  is_Some (codon_aa_counts (process_record verbose r st) !! key) ↔
  is_Some (codon_aa_counts st !! key)
  ∨ ∃ f i, f ∈ features r ∧ counted_at r f i key.
Proof.
  unfold process_record, counted_at. revert st.
  induction (features r) as [|f fs IH]; intros st; simpl.
  - split; [auto|]. intros [?|(f & i & Hf & _)]; [done|]. by apply elem_of_nil in Hf.
  - rewrite IH, process_feature_lookup. setoid_rewrite elem_of_cons. split.
    + intros [[?|(Hc & i & Hi & ->)]|(g & i & Hg & H)]; eauto 10.
    + intros [?|(g & i & [->|Hg] & Hc & Hi & ->)]; eauto 10.
Qed.

Lemma process_records_lookup (verbose : bool) (records : list SeqRecord) (st : state)
    (key : CodonAAKey) :
  is_Some (codon_aa_counts (process_records verbose records st) !! key) ↔
  is_Some (codon_aa_counts st !! key)
  ∨ ∃ r f i, r ∈ records ∧ f ∈ features r ∧ counted_at r f i key.
Proof.
  unfold process_records. revert st.
  induction records as [|r rs IH]; intros st; simpl.
  - split; [auto|]. intros [?|(r & f & i & Hr & _)]; [done|]. by apply elem_of_nil in Hr.
  - rewrite IH, process_record_lookup. setoid_rewrite elem_of_cons. split.
    + intros [[?|(f & i & Hf & H)]|(r' & f & i & Hr & H)]; eauto 10.
    + intros [?|(r' & f & i & [->|Hr] & Hf & H)]; eauto 10.
Qed.

(** The key counted at a codon position of a counted feature. *)
Lemma codon_event_invariant (r : SeqRecord) (f : SeqFeature) (i : nat)
    (key : CodonAAKey) :
  counted_at r f i key → event_invariant (qualifier f "translation" "") i key.
Proof.
  intros ((_ & _ & _ & Hv) & Hi & ->).
  apply elem_of_range_0 in Hi as (k & -> & Hk).
  set (s := extract f (seq r)) in *. set (t := qualifier f "translation" "").
  assert (3 * k + 3 ≤ String.length (Str.upper s)) as Hlen.
  { rewrite upper_length. pose proof (Nat.div_mod_eq (String.length s) 3). lia. }
  assert (String.length (Str.slice (Str.upper s) (3 * k) (3 * k + 3)) = 3
          ∧ Forall (λ c, c = "A"%char ∨ c = "T"%char ∨ c = "C"%char ∨ c = "G"%char)
              (Str.chars (Str.slice (Str.upper s) (3 * k) (3 * k + 3)))) as [H3 HA].
  { unfold Str.slice. replace (3 * k + 3 - 3 * k) with 3 by lia. split.
    - by apply substring_length.
    - unfold Spec.only_ATCG in Hv. rewrite list.Forall_forall in Hv |- *.
      intros c Hc. eapply Hv, substring_chars, Hc. }
  unfold codon_event, event_invariant.
  destruct (decide (3 * k / 3 < String.length t)) as [Hlt|Hge].
  - destruct (decide (3 * k = 0)); repeat split; done.
  - repeat split; try done. lia.
Qed.

(** C9.  The keys of the counter are the keys counted at the codon
    positions of the counted features, and every key counted at offset [i]
    satisfies: START only at [i = 0]; STOP only when the position [i // 3] is
    at or beyond the length of the translation, and then the amino acid is
    "*"; the codon has 3 characters, each one of A, T, C, G. *)
Theorem counted_events_invariant (verbose : bool) (records : list SeqRecord) :
  (∀ key,
     is_Some (codon_aa_counts (process_records verbose records initial) !! key) ↔
     ∃ r f i, r ∈ records ∧ f ∈ features r ∧ counted_at r f i key)
  ∧ (∀ r f i key,
       r ∈ records → f ∈ features r → counted_at r f i key →
       let '(codon, aa_code, special_type) := key in
       (special_type = "START" → i = 0)
       ∧ (special_type = "STOP" →
          String.length (qualifier f "translation" "") ≤ i / 3 ∧ aa_code = "*")
       ∧ String.length codon = 3
       ∧ Forall (λ c, c = "A"%char ∨ c = "T"%char ∨ c = "C"%char ∨ c = "G"%char)
                (Str.chars codon)).
Proof.
  split.
  - intros key. rewrite process_records_lookup.
    unfold initial; cbn [codon_aa_counts]. rewrite lookup_empty. split.
    + by intros [[? [=]]|?].
    + auto.
  - intros r f i key _ _ H. apply (codon_event_invariant _ _ _ _ H).
Qed.

Lemma counted_events_invariant_witness :
  is_Some (codon_aa_counts (process_records true (yielded test_source) initial)
             !! ("ATG", "M", "START"))
  ∧ ((("START" : string) = "START" → 0 = 0)
     ∧ (("START" : string) = "STOP" →
        String.length (qualifier test_feature "translation" "") ≤ 0 / 3
        ∧ ("M" : string) = "*")
     ∧ String.length "ATG" = 3
     ∧ Forall (λ c, c = "A"%char ∨ c = "T"%char ∨ c = "C"%char ∨ c = "G"%char)
              (Str.chars "ATG")).
Proof.
  assert (test_record ∈ yielded test_source) as Hr by (left).
  assert (test_feature ∈ features test_record) as Hf by (left).
  assert (counted_at test_record test_feature 0 ("ATG", "M", "START")) as Hc.
  { split; [compute_done|]. split; [left|reflexivity]. }
  destruct (counted_events_invariant true (yielded test_source)) as [Hkeys Hinv].
  split.
  - apply Hkeys. eauto 10.
  - exact (Hinv test_record test_feature 0 ("ATG", "M", "START") Hr Hf Hc).
Defined.

(** ** A feature without bases *)

(** C10.  A CDS feature with a translation, without a [pseudo] qualifier
    and with an extracted sequence of length 0 passes the check of the bases
    and is processed: it is counted as a processed CDS, no warning is
    printed for it, the counter is left as it is, and the run gives the
    result it gives without the feature. *)
Theorem empty_sequence_processed (verbose : bool) (e : option exn) (t : Qc)
    (before after : list SeqRecord) (r : SeqRecord)
    (fs1 fs2 : list SeqFeature) (f : SeqFeature) (st : state) :
  type f = "CDS" →
  qualifier f "translation" "" ≠ "" →
  qualifiers f !! "pseudo" = None →
  String.length (extract f (seq r)) = 0 →
  issubset_valid (Str.upper (extract f (seq r))) = true
  ∧ process_feature verbose (seq r) f st =
    {| codon_aa_counts := codon_aa_counts st;
       total_cds_processed := total_cds_processed st + 1;
       printed := printed st |}
  ∧ calculate_codon_frequency_to_df
      {| yielded := before ++ with_features r (fs1 ++ [f] ++ fs2) :: after;
         raised := e |} t verbose =
    calculate_codon_frequency_to_df
      {| yielded := before ++ with_features r (fs1 ++ [] ++ fs2) :: after;
         raised := e |} t verbose.
Proof.
  intros Ht Hq Hp Hlen.
  assert (extract f (seq r) = "") as Hs
    by (by destruct (extract f (seq r))).
  assert (process_feature verbose (seq r) f st =
    {| codon_aa_counts := codon_aa_counts st;
       total_cds_processed := total_cds_processed st + 1;
       printed := printed st |}) as Hpf.
  { unfold process_feature.
    rewrite (decide_True _ _ Ht), (decide_False _ _ Hq), Hp, Hs.
    rewrite decide_False by (by intros [? [=]]). done. }
  split; [by rewrite Hs|]. split; [done|].
  apply calculate_exchange, process_records_exchange. intros st'. cbn [foldl].
  rewrite process_feature_counts. destruct (decide _); [|done].
  rewrite Hs. done.
Qed.

Lemma empty_sequence_processed_witness :
  issubset_valid (Str.upper "") = true
  ∧ process_feature true (seq test_record) empty_feature initial =
    {| codon_aa_counts := ∅; total_cds_processed := 1; printed := [] |}
  ∧ calculate_codon_frequency_to_df
      {| yielded := [with_features test_record [test_feature; empty_feature]];
         raised := None |} 0 true =
    calculate_codon_frequency_to_df
      {| yielded := [with_features test_record [test_feature]];
         raised := None |} 0 true.
Proof.
  apply (empty_sequence_processed true None 0 [] [] test_record
           [test_feature] [] empty_feature initial).
  - reflexivity.
  - discriminate.
  - reflexivity.
  - reflexivity.
Defined.

(** ** The report *)

Lemma sorted_items_perm (counts : CodonAACounter) :
  sorted_items counts ≡ₚ map_to_list counts.
Proof. apply merge_sort_Permutation. Qed.

Lemma sum_values_sorted (counts : CodonAACounter) :
  sum_values counts = sum_list ((sorted_items counts).*2).
Proof. rewrite sum_values_sum_list. by rewrite sorted_items_perm. Qed.

Lemma build_report_Some (counts : CodonAACounter) (t : Qc) :
  sum_values counts ≠ 0 →
  build_report counts t =
  Some (if decide (0 < t)%Qc
        then filter (λ r, (t ≤ Freq r)%Qc) (report_data counts)
        else report_data counts).
Proof.
  intros Hsum. unfold build_report, report_data. rewrite decide_False by done.
  destruct (sorted_items counts) as [|item items] eqn:E.
  - rewrite sum_values_sorted, E in Hsum. done.
  - cbn [fmap list_fmap]. by destruct (decide _).
Qed.

Lemma build_report_None (counts : CodonAACounter) (t : Qc) :
  build_report counts t = None ↔ sum_values counts = 0.
Proof.
  split.
  - intros H. destruct (decide (sum_values counts = 0)) as [|Hne]; [done|].
    by rewrite build_report_Some in H.
  - intros H. unfold build_report. by rewrite decide_True.
Qed.

Lemma Freq_make_row (T : nat) (key : CodonAAKey) (count : nat) :
  Freq (make_row T (key, count)) = (Qc_of_nat count / Qc_of_nat T * Qc_of_nat 100)%Qc.
Proof. by destruct key as [[??]?]. Qed.

Lemma Count_make_row (T : nat) (key : CodonAAKey) (count : nat) :
  Count (make_row T (key, count)) = count.
Proof. by destruct key as [[??]?]. Qed.

Lemma Qc_of_nat_add (a b : nat) : Qc_of_nat (a + b) = (Qc_of_nat a + Qc_of_nat b)%Qc.
Proof. unfold Qc_of_nat. by rewrite Nat2Z.inj_add, Z2Qc_inj_add. Qed.

Lemma Qc_of_nat_le (a b : nat) : a ≤ b → (Qc_of_nat a ≤ Qc_of_nat b)%Qc.
Proof. intros H. unfold Qc_of_nat. apply (proj1 (Z2Qc_inj_le _ _)). lia. Qed.

Lemma Qc_of_nat_pos (n : nat) : n ≠ 0 → (0 < Qc_of_nat n)%Qc.
Proof.
  intros H. unfold Qc_of_nat. rewrite <-Z2Qc_inj_0.
  apply (proj1 (Z2Qc_inj_lt _ _)). lia.
Qed.

Lemma Qc_of_nat_nonneg (n : nat) : (0 ≤ Qc_of_nat n)%Qc.
Proof.
  unfold Qc_of_nat. rewrite <-Z2Qc_inj_0. apply (proj1 (Z2Qc_inj_le _ _)). lia.
Qed.

Lemma sum_freq_make_row (T : nat) (items : list (CodonAAKey * nat)) :
  sum_freq (make_row T <$> items) =
  (Qc_of_nat (sum_list (items.*2)) / Qc_of_nat T * Qc_of_nat 100)%Qc.
Proof.
  induction items as [|[key count] items IH].
  - change (sum_freq (make_row T <$> [])) with 0%Qc.
    change (Qc_of_nat (sum_list ([] : list (CodonAAKey * nat)).*2)) with (Qc_of_Z 0).
    rewrite Z2Qc_inj_0. unfold Qcdiv. ring.
  - rewrite !fmap_cons. cbn [sum_freq foldr sum_list_with snd id].
    fold (sum_freq (make_row T <$> items)).
    rewrite IH, Freq_make_row, Qc_of_nat_add. unfold Qcdiv. ring.
Qed.

Lemma freq_bounds (count T : nat) :
  count ≤ T → T ≠ 0 →
  (0 ≤ Qc_of_nat count / Qc_of_nat T * Qc_of_nat 100
   ∧ Qc_of_nat count / Qc_of_nat T * Qc_of_nat 100 ≤ Qc_of_nat 100)%Qc.
Proof.
  intros Hle HT.
  pose proof (Qc_of_nat_pos T HT) as Hpos.
  pose proof (Qclt_le_weak _ _ (Qcinv_pos _ Hpos)) as Hinv.
  unfold Qcdiv. split.
  - apply Qcmult_nonneg_nonneg; [|apply Qc_of_nat_nonneg].
    apply Qcmult_nonneg_nonneg; [apply Qc_of_nat_nonneg|done].
  - rewrite <-(Qcmult_1_l (Qc_of_nat 100)) at 2.
    apply Qcmult_le_mono_nonneg_r; [apply Qc_of_nat_nonneg|].
    rewrite <-(Qcmult_inv_r (Qc_of_nat T)).
    + apply Qcmult_le_mono_nonneg_r; [done|]. by apply Qc_of_nat_le.
    + intros E. rewrite E in Hpos. by apply Qclt_not_eq in Hpos.
Qed.

Lemma sum_freq_report_data (counts : CodonAACounter) :
  sum_values counts ≠ 0 → sum_freq (report_data counts) = Qc_of_nat 100.
Proof.
  intros HT. unfold report_data. rewrite sum_freq_make_row, <-sum_values_sorted.
  pose proof (Qc_of_nat_pos _ HT) as Hpos.
  field. intros E. rewrite E in Hpos. by apply Qclt_not_eq in Hpos.
Qed.

Lemma report_data_bounds (counts : CodonAACounter) :
  sum_values counts ≠ 0 →
  Forall (λ r, (0 ≤ Freq r ∧ Freq r ≤ Qc_of_nat 100)%Qc) (report_data counts).
Proof.
  intros HT. unfold report_data. rewrite list.Forall_forall. intros r Hr.
  apply list_elem_of_fmap in Hr as ([key count] & -> & Hitem).
  rewrite Freq_make_row. apply freq_bounds; [|done].
  rewrite sum_values_sorted.
  apply (sum_list_with_in count (λ n, n)). apply list_elem_of_fmap. by exists (key, count).
Qed.

Lemma calculate_build_report (src : source) (t : Qc) (verbose : bool) :
  calculate_codon_frequency_to_df src t verbose =
  match raised src with
  | Some _ => None
  | None =>
      build_report (codon_aa_counts (process_records verbose (yielded src) initial)) t
  end.
Proof.
  unfold calculate_codon_frequency_to_df, aggregate.
  by destruct (raised src) as [[]|].
Qed.

Lemma Count_report_data (counts : CodonAACounter) :
  Count <$> report_data counts = (sorted_items counts).*2.
Proof.
  unfold report_data. rewrite <-list_fmap_compose. apply list_fmap_ext.
  intros _ [key count] _. apply Count_make_row.
Qed.

Lemma report_data_Freq (counts : CodonAACounter) :
  Forall (λ r, Freq r = (Qc_of_nat (Count r) / Qc_of_nat (sum_values counts)
                         * Qc_of_nat 100)%Qc) (report_data counts).
Proof.
  unfold report_data. rewrite list.Forall_forall. intros r Hr.
  apply list_elem_of_fmap in Hr as ([key count] & -> & _).
  by rewrite Freq_make_row, Count_make_row.
Qed.

(** ** Frequencies *)

(** C5.  In a report made without the filter (threshold 0) the frequency of
    a row is its count divided by the sum of the counts, times 100; it lies
    between 0 and 100, and the frequencies of the rows sum to 100. *)
Theorem frequency_normalization (src : source) (verbose : bool) (rows : list row) :
  calculate_codon_frequency_to_df src 0 verbose = Some rows →
  Forall (λ r, Freq r = (Qc_of_nat (Count r) / Qc_of_nat (sum_list (Count <$> rows))
                         * Qc_of_nat 100)%Qc
               ∧ (0 ≤ Freq r)%Qc ∧ (Freq r ≤ Qc_of_nat 100)%Qc) rows
  ∧ sum_freq rows = Qc_of_nat 100.
Proof.
  rewrite calculate_build_report. destruct (raised src); [done|].
  set (counts := codon_aa_counts _). intros H.
  destruct (decide (sum_values counts = 0)) as [H0|Hne].
  { apply (build_report_None counts 0) in H0. congruence. }
  rewrite (build_report_Some _ _ Hne) in H.
  rewrite decide_False in H by (by intros ?%Qclt_not_eq). injection H as <-.
  split; [|by apply sum_freq_report_data].
  rewrite Count_report_data, <-sum_values_sorted.
  pose proof (report_data_Freq counts) as HF.
  pose proof (report_data_bounds counts Hne) as HB.
  rewrite list.Forall_forall in HF, HB |- *. intros r Hr.
  split; [by apply HF|]. by apply HB.
Qed.

Lemma frequency_normalization_witness :
  Forall (λ r, Freq r = (Qc_of_nat (Count r) / Qc_of_nat (sum_list (Count <$> mgg_rows))
                         * Qc_of_nat 100)%Qc
               ∧ (0 ≤ Freq r)%Qc ∧ (Freq r ≤ Qc_of_nat 100)%Qc) mgg_rows
  ∧ sum_freq mgg_rows = Qc_of_nat 100.
Proof.
  apply (frequency_normalization test_source true mgg_rows).
  rewrite calculate_build_report. cbn [raised test_source yielded].
  replace (codon_aa_counts (process_records true [test_record] initial))
    with mgg_counts by (apply map_to_list_inj; vm_compute; reflexivity).
  apply mgg_report.
Defined.

(** ** The filter *)

Lemma DEFAULT_MIN_FREQ_pos : (0 < DEFAULT_MIN_FREQ)%Qc.
Proof. done. Qed.

Lemma build_report_filter (counts : CodonAACounter) (t : Qc) (rows : list row) :
  (0 < t)%Qc →
  build_report counts 0 = Some rows →
  build_report counts t = Some (filter (λ r, (t ≤ Freq r)%Qc) rows).
Proof.
  intros Ht H.
  destruct (decide (sum_values counts = 0)) as [H0|Hne].
  { apply (build_report_None counts 0) in H0. congruence. }
  rewrite (build_report_Some _ 0 Hne) in H. rewrite (build_report_Some _ t Hne).
  rewrite decide_False in H by (by intros ?%Qclt_not_eq). injection H as <-.
  by rewrite decide_True.
Qed.

(** C8.  With a threshold above 0 the report keeps exactly the rows of the
    unfiltered report whose frequency is at least the threshold, and it is
    present whenever the unfiltered report is, also when no row is kept.
    Without [no_freq_filter] the threshold is [DEFAULT_MIN_FREQ], 0.05,
    compared with the frequency in percent. *)
Theorem threshold_filter (src : source) (verbose : bool) (rows : list row) :
  calculate_codon_frequency_to_df src 0 verbose = Some rows →
  (∀ t, (0 < t)%Qc →
     calculate_codon_frequency_to_df src t verbose =
       Some (filter (λ r, (t ≤ Freq r)%Qc) rows)
     ∧ ∀ r, r ∈ filter (λ r, (t ≤ Freq r)%Qc) rows ↔ (t ≤ Freq r)%Qc ∧ r ∈ rows)
  ∧ DEFAULT_MIN_FREQ = Q2Qc (5 # 100)
  ∧ run_codon_analysis true true src false verbose =
      Some (filter (λ r, (Q2Qc (5 # 100) ≤ Freq r)%Qc) rows)
  ∧ run_codon_analysis true true src true verbose = Some rows.
Proof.
  intros H.
  assert (∀ t, (0 < t)%Qc →
            calculate_codon_frequency_to_df src t verbose =
            Some (filter (λ r, (t ≤ Freq r)%Qc) rows)) as Hfilter.
  { intros t Ht. rewrite calculate_build_report in H |- *.
    destruct (raised src); [done|]. by apply build_report_filter. }
  split; [|split; [done|split]].
  - intros t Ht. split; [by apply Hfilter|]. intros r.
    apply (list_elem_of_filter (λ r, (t ≤ Freq r)%Qc)).
  - unfold run_codon_analysis. cbn [negb orb].
    apply (Hfilter _ DEFAULT_MIN_FREQ_pos).
  - done.
Qed.

Lemma threshold_filter_witness :
  calculate_codon_frequency_to_df test_source (Qc_of_nat 20) true = Some mgg_rows
  ∧ calculate_codon_frequency_to_df test_source (Qc_of_nat 50) true = Some []
  ∧ run_codon_analysis true true test_source false true = Some mgg_rows.
Proof.
  assert (calculate_codon_frequency_to_df test_source 0 true = Some mgg_rows) as H.
  { rewrite calculate_build_report. cbn [raised test_source yielded].
    replace (codon_aa_counts (process_records true [test_record] initial))
      with mgg_counts by (apply map_to_list_inj; vm_compute; reflexivity).
    apply mgg_report. }
  destruct (threshold_filter test_source true mgg_rows H) as (Ht & _ & Hrun & _).
  split; [|split].
  - rewrite (proj1 (Ht (Qc_of_nat 20) eq_refl)). reflexivity.
  - rewrite (proj1 (Ht (Qc_of_nat 50) eq_refl)). reflexivity.
  - rewrite Hrun. reflexivity.
Defined.

Lemma filter_threshold_sublist (t1 t2 : Qc) (data : list row) :
  (t1 ≤ t2)%Qc →
  filter (λ r, (t2 ≤ Freq r)%Qc) data `sublist_of` filter (λ r, (t1 ≤ Freq r)%Qc) data.
Proof.
  intros Hle.
  rewrite (list_filter_iff (λ r, (t2 ≤ Freq r)%Qc)
             (λ r, (t2 ≤ Freq r)%Qc ∧ (t1 ≤ Freq r)%Qc)).
  - rewrite <-list_filter_filter. apply sublist_filter.
  - intros r. split; [|tauto]. intros H. split; [done|]. by eapply Qcle_trans.
Qed.

(** C6.  For thresholds [0 <= t1 <= t2], the report made with [t2] is
    present exactly when the report made with [t1] is, and its rows are rows
    of the report made with [t1], in the same order. *)
Theorem filter_monotone (counts : CodonAACounter) (t1 t2 : Qc) :
  (0 ≤ t1)%Qc → (t1 ≤ t2)%Qc →
  match build_report counts t1, build_report counts t2 with
  | Some rows1, Some rows2 =>
      rows2 `sublist_of` rows1 ∧ ∀ r, r ∈ rows2 → r ∈ rows1
  | None, None => True
  | _, _ => False
  end.
Proof.
  intros H0 Hle.
  destruct (decide (sum_values counts = 0)) as [Hz|Hne].
  { by rewrite !(proj2 (build_report_None counts _) Hz). }
  rewrite !(build_report_Some _ _ Hne).
  assert (∀ l1 l2 : list row, l2 `sublist_of` l1 →
            l2 `sublist_of` l1 ∧ ∀ r, r ∈ l2 → r ∈ l1) as Hsub.
  { intros l1 l2 Hs. split; [done|]. intros r Hr. by eapply elem_of_sublist. }
  apply Hsub. destruct (decide (0 < t1)%Qc) as [H1|H1].
  - rewrite decide_True by (by eapply Qclt_le_trans).
    by apply filter_threshold_sublist.
  - destruct (decide (0 < t2)%Qc); [apply sublist_filter|done].
Qed.

Lemma filter_monotone_witness :
  match build_report ten_counts (Qc_of_nat 10), build_report ten_counts (Qc_of_nat 20) with
  | Some rows1, Some rows2 =>
      rows2 `sublist_of` rows1 ∧ ∀ r, r ∈ rows2 → r ∈ rows1
  | None, None => True
  | _, _ => False
  end.
Proof. apply (filter_monotone ten_counts (Qc_of_nat 10) (Qc_of_nat 20)); discriminate. Defined.

Lemma ten_source_counts :
  codon_aa_counts (process_records true (yielded ten_source) initial) = ten_counts.
Proof. apply map_to_list_inj. vm_compute. reflexivity. Qed.

(** ** The order of the rows *)

Section sorted.
Context {A : Type} (R : relation A).

Lemma StronglySorted_sublist (l1 l2 : list A) :
  l1 `sublist_of` l2 → StronglySorted R l2 → StronglySorted R l1.
Proof.
  induction 1 as [|x l1 l2 Hsub IH|x l1 l2 Hsub IH]; intros Hs.
  - constructor.
  - apply StronglySorted_inv in Hs as [Hs Hx]. constructor; [by apply IH|].
    rewrite list.Forall_forall in Hx |- *.
    intros y Hy. apply Hx. by eapply elem_of_sublist.
  - apply StronglySorted_inv in Hs as [Hs _]. by apply IH.
Qed.

Lemma StronglySorted_fmap_inv {B : Type} (f : B → A) (l : list B) :
  StronglySorted R (f <$> l) → StronglySorted (λ x y, R (f x) (f y)) l.
Proof.
  induction l as [|x l IH]; intros Hs; [constructor|].
  rewrite fmap_cons in Hs. apply StronglySorted_inv in Hs as [Hs Hx].
  constructor; [by apply IH|].
  rewrite list.Forall_forall in Hx. rewrite list.Forall_forall. intros y Hy.
  apply Hx, list_elem_of_fmap. eauto.
Qed.
End sorted.

Lemma sorted_items_elem_of (counts : CodonAACounter) (key : CodonAAKey) (count : nat) :
  (key, count) ∈ sorted_items counts ↔ counts !! key = Some count.
Proof. by rewrite sorted_items_perm, elem_of_map_to_list. Qed.

(** The items come out with their keys in strictly ascending order. *)
Lemma sorted_items_keys (counts : CodonAACounter) :
  StronglySorted (λ k1 k2, key_compare k1 k2 = Lt) (sorted_items counts).*1.
Proof.
  assert (NoDup (sorted_items counts).*1) as Hnd.
  { rewrite sorted_items_perm. apply NoDup_fst_map_to_list. }
  assert (StronglySorted item_le (sorted_items counts)) as Hs.
  { apply StronglySorted_merge_sort; apply _. }
  induction Hs as [|[k c] l Hs IH Hx]; [constructor|].
  rewrite fmap_cons in Hnd |- *. apply list.NoDup_cons in Hnd as [Hk Hnd].
  constructor; [by apply IH|].
  rewrite list.Forall_forall in Hx. rewrite list.Forall_forall.
  intros ? ([k' c'] & -> & Hy)%list_elem_of_fmap. specialize (Hx _ Hy).
  cbn [fst].
  unfold item_le, item_compare in Hx. cbn [fst snd] in Hx.
  destruct (key_compare k k') eqn:E; [|done|by cbn in Hx].
  apply cmp_eq in E as ->. destruct Hk.
  apply list_elem_of_fmap. by exists (k', c').
Qed.

Lemma row_key_make_row (T : nat) (key : CodonAAKey) (count : nat) :
  (key.2 = "STOP" → key.1.2 = "*") → row_key (make_row T (key, count)) = key.
Proof.
  destruct key as [[codon aa_code] special_type]. cbn [fst snd]. intros Hstop.
  unfold row_key, make_row. cbn [Codon Amino_Acid Special_Type].
  destruct (decide _) as [[->%Hstop| ->]|]; done.
Qed.

(** In the counter of an aggregation a STOP key has the amino acid "*". *)
Lemma aggregated_stop (verbose : bool) (records : list SeqRecord) (key : CodonAAKey) :
  is_Some (codon_aa_counts (process_records verbose records initial) !! key) →
  key.2 = "STOP" → key.1.2 = "*".
Proof.
  rewrite process_records_lookup. unfold initial; cbn [codon_aa_counts].
  rewrite lookup_empty. intros [[? [=]]|(r & f & i & _ & _ & Hc)].
  apply codon_event_invariant in Hc.
  destruct key as [[codon aa_code] special_type]. cbn [fst snd].
  unfold event_invariant in Hc. intros Hstop. by apply Hc.
Qed.

Lemma report_data_keys (verbose : bool) (records : list SeqRecord) :
  let counts := codon_aa_counts (process_records verbose records initial) in
  (λ r, (row_key r, Count r)) <$> report_data counts = sorted_items counts.
Proof.
  intros counts. unfold report_data. rewrite <-list_fmap_compose.
  rewrite <-(list_fmap_id (sorted_items counts)) at 2.
  apply list_fmap_ext. intros _ [key count] Hitem%list_elem_of_lookup_2.
  apply sorted_items_elem_of in Hitem. cbn [compose].
  rewrite Count_make_row, row_key_make_row; [done|].
  apply (aggregated_stop verbose records). eexists. exact Hitem.
Qed.

(** C7.  The rows of every report are in strictly ascending order of the
    tuple (codon, amino acid, special type), compared as Python compares
    tuples of strings.  The rows of the unfiltered report are the items of
    the counter in sorted order, and a filtered report is a sublist of it:
    the filter drops rows and keeps the order. *)
Theorem report_sorted (src : source) (t : Qc) (verbose : bool) (rows : list row) :
  calculate_codon_frequency_to_df src t verbose = Some rows →
  StronglySorted (λ r1 r2, key_compare (row_key r1) (row_key r2) = Lt) rows
  ∧ ∃ rows0,
      calculate_codon_frequency_to_df src 0 verbose = Some rows0
      ∧ rows `sublist_of` rows0
      ∧ (λ r, (row_key r, Count r)) <$> rows0 =
        sorted_items (codon_aa_counts (process_records verbose (yielded src) initial)).
Proof.
  rewrite !calculate_build_report. destruct (raised src); [done|].
  set (counts := codon_aa_counts _). intros H.
  destruct (decide (sum_values counts = 0)) as [H0|Hne].
  { apply (build_report_None counts t) in H0. congruence. }
  rewrite (build_report_Some _ t Hne) in H. injection H as <-.
  rewrite (build_report_Some _ 0 Hne).
  rewrite (decide_False (P := (0 < 0)%Qc)) by (by intros ?%Qclt_not_eq).
  assert ((if decide (0 < t)%Qc
           then filter (λ r, (t ≤ Freq r)%Qc) (report_data counts)
           else report_data counts) `sublist_of` report_data counts) as Hsub.
  { destruct (decide _); [apply sublist_filter|done]. }
  pose proof (report_data_keys verbose (yielded src)) as Hkeys. cbn zeta in Hkeys.
  fold counts in Hkeys.
  split; [|by exists (report_data counts)].
  apply (StronglySorted_sublist _ _ _ Hsub).
  apply (StronglySorted_fmap_inv (λ k1 k2, key_compare k1 k2 = Lt) row_key).
  replace (row_key <$> report_data counts) with (sorted_items counts).*1.
  - apply sorted_items_keys.
  - rewrite <-Hkeys, <-list_fmap_compose. done.
Qed.

Lemma report_sorted_witness :
  StronglySorted (λ r1 r2, key_compare (row_key r1) (row_key r2) = Lt) mgg_rows
  ∧ ∃ rows0,
      calculate_codon_frequency_to_df test_source 0 true = Some rows0
      ∧ mgg_rows `sublist_of` rows0
      ∧ (λ r, (row_key r, Count r)) <$> rows0 =
        sorted_items
          (codon_aa_counts (process_records true (yielded test_source) initial)).
Proof.
  apply (report_sorted test_source (Qc_of_nat 20) true mgg_rows).
  rewrite calculate_build_report. cbn [raised test_source yielded].
  replace (codon_aa_counts (process_records true [test_record] initial))
    with mgg_counts by (apply map_to_list_inj; vm_compute; reflexivity).
  rewrite (build_report_filter mgg_counts (Qc_of_nat 20) mgg_rows eq_refl mgg_report).
  reflexivity.
Defined.


(** * More of the program *)

(** ** The count of a key *)

Lemma count_of_incr (key k : CodonAAKey) (counts : CodonAACounter) :
  count_of key (incr k counts) =
  count_of key counts + (if decide (key = k) then 1 else 0).
Proof.
  unfold count_of, incr. destruct (decide (key = k)) as [->|Hne].
  - rewrite lookup_insert_eq. simpl. lia.
  - rewrite lookup_insert_ne by done. lia.
Qed.

Lemma incr_comm (k1 k2 : CodonAAKey) (counts : CodonAACounter) :
  incr k1 (incr k2 counts) = incr k2 (incr k1 counts).
Proof.
  destruct (decide (k1 = k2)) as [->|Hne]; [done|].
  unfold incr. rewrite !lookup_insert_ne by done.
  by apply insert_insert_ne.
Qed.

Lemma count_of_foldl_incr (key : CodonAAKey) (events : list CodonAAKey)
    (counts : CodonAACounter) :
  count_of key (foldl (λ c k, incr k c) counts events) =
  count_of key counts + occurrences (λ k, k = key) events.
Proof.
  unfold occurrences. revert counts.
  induction events as [|k events IH]; intros counts; simpl; [lia|].
  rewrite IH, count_of_incr, filter_cons.
  destruct (decide (key = k)) as [->|Hne].
  - rewrite decide_True by done. simpl. lia.
  - rewrite decide_False by done. lia.
Qed.

Lemma foldl_incr_Permutation (events events' : list CodonAAKey)
    (counts : CodonAACounter) :
  events ≡ₚ events' →
  foldl (λ c k, incr k c) counts events = foldl (λ c k, incr k c) counts events'.
Proof.
  intros Hp. revert counts.
  induction Hp as [|k l l' Hp IH|k1 k2 l|l l' l'' Hp IH Hp' IH']; intros counts; simpl.
  - done.
  - apply IH.
  - by rewrite incr_comm.
  - by rewrite IH, IH'.
Qed.

Lemma feature_events_counted (record_seq : string) (f : SeqFeature) :
  feature_events record_seq f =
  if decide (Spec.counted record_seq f)
  then codon_event (Str.upper (extract f record_seq)) (qualifier f "translation" "")
         <$> range 0 (String.length (extract f record_seq) / 3 * 3) 3
  else [].
Proof.
  unfold feature_events.
  destruct (decide (Spec.counted record_seq f)) as [(Ht & Hq & Hp & Hv)|Hn].
  - rewrite lacks_translation_qualifier in Hq. rewrite only_ATCG_issubset in Hv.
    by rewrite (decide_True _ _ Ht), (decide_False _ _ Hq), (decide_False _ _ Hp), Hv.
  - destruct (decide (type f = "CDS")) as [Ht|Ht]; [|done].
    destruct (decide (qualifier f "translation" "" = "")) as [Hq|Hq]; [done|].
    destruct (decide (is_Some (qualifiers f !! "pseudo"))) as [Hp|Hp]; [done|].
    destruct (issubset_valid (Str.upper (extract f record_seq))) eqn:Hv; [|done].
    destruct Hn. unfold Spec.counted, Spec.pseudo.
    rewrite lacks_translation_qualifier, only_ATCG_issubset. tauto.
Qed.

Lemma process_feature_events (verbose : bool) (record_seq : string)
    (f : SeqFeature) (st : state) :
  codon_aa_counts (process_feature verbose record_seq f st) =
  foldl (λ c k, incr k c) (codon_aa_counts st) (feature_events record_seq f).
Proof.
  rewrite process_feature_counts, feature_events_counted.
  destruct (decide _); [|done].
  unfold count_codons. by rewrite foldl_fmap.
Qed.

Lemma process_record_events (verbose : bool) (r : SeqRecord) (st : state) :
  codon_aa_counts (process_record verbose r st) =
  foldl (λ c k, incr k c) (codon_aa_counts st) (record_events r).
Proof.
  unfold process_record, record_events. revert st.
  induction (features r) as [|f fs IH]; intros st; [done|].
  rewrite bind_cons, foldl_app. cbn [foldl].
  by rewrite IH, process_feature_events.
Qed.

Lemma process_records_events (verbose : bool) (records : list SeqRecord) (st : state) :
  codon_aa_counts (process_records verbose records st) =
  foldl (λ c k, incr k c) (codon_aa_counts st) (source_events records).
Proof.
  unfold process_records, source_events. revert st.
  induction records as [|r rs IH]; intros st; [done|].
  rewrite bind_cons, foldl_app. cbn [foldl].
  by rewrite IH, process_record_events.
Qed.

(** X1.  The count the aggregation stores for a key is the number of codon
    positions, over all the features of all the records, at which the body
    of the codon loop produces this key; a key produced nowhere reads 0. *)
Theorem count_is_occurrences (verbose : bool) (records : list SeqRecord)
    (key : CodonAAKey) :
  count_of key (codon_aa_counts (process_records verbose records initial)) =
  occurrences (λ k, k = key) (source_events records).
Proof.
  rewrite process_records_events, count_of_foldl_incr.
  unfold initial, count_of; cbn [codon_aa_counts]. by rewrite lookup_empty.
Qed.

(** X2.  Aggregating two lists of records one after the other stores, for
    every key, the sum of the counts that aggregating each list alone
    stores: partial counters can be merged by adding them. *)
Theorem counts_of_app (verbose : bool) (records1 records2 : list SeqRecord)
    (key : CodonAAKey) :
  count_of key
    (codon_aa_counts (process_records verbose (records1 ++ records2) initial)) =
  count_of key (codon_aa_counts (process_records verbose records1 initial))
  + count_of key (codon_aa_counts (process_records verbose records2 initial)).
Proof.
  rewrite !process_records_events, !count_of_foldl_incr.
  unfold source_events, occurrences. rewrite bind_app, list.filter_app, length_app.
  unfold initial, count_of; cbn [codon_aa_counts]. rewrite lookup_empty. simpl. lia.
Qed.

Lemma record_events_with_features (r : SeqRecord) (fs : list SeqFeature) :
  record_events (with_features r fs) = fs ≫= feature_events (seq r).
Proof. done. Qed.

(** X3.  The result does not depend on the order of the input: the records
    can be permuted, and so can the features of a record, without changing
    the counter or the data frame returned. *)
Theorem order_independent (verbose : bool) (e : option exn) (t : Qc)
    (records records' before after : list SeqRecord) (r : SeqRecord)
    (fs fs' : list SeqFeature) :
  (records ≡ₚ records' →
   codon_aa_counts (process_records verbose records initial) =
   codon_aa_counts (process_records verbose records' initial)
   ∧ calculate_codon_frequency_to_df {| yielded := records; raised := e |} t verbose =
     calculate_codon_frequency_to_df {| yielded := records'; raised := e |} t verbose)
  ∧ (fs ≡ₚ fs' →
     calculate_codon_frequency_to_df
       {| yielded := before ++ with_features r fs :: after; raised := e |} t verbose =
     calculate_codon_frequency_to_df
       {| yielded := before ++ with_features r fs' :: after; raised := e |} t verbose).
Proof.
  split.
  - intros Hp.
    assert (codon_aa_counts (process_records verbose records initial) =
            codon_aa_counts (process_records verbose records' initial)) as E.
    { rewrite !process_records_events. apply foldl_incr_Permutation.
      unfold source_events. by rewrite Hp. }
    split; [done|]. by apply calculate_exchange.
  - intros Hp. apply calculate_exchange.
    rewrite !process_records_events. apply foldl_incr_Permutation.
    unfold source_events. rewrite !bind_app, !bind_cons.
    rewrite !record_events_with_features. by rewrite Hp.
Qed.

Lemma order_independent_witness :
  calculate_codon_frequency_to_df
    {| yielded := [ten_record; test_record]; raised := None |} 0 true =
  calculate_codon_frequency_to_df ten_source 0 true
  ∧ calculate_codon_frequency_to_df
      {| yielded :=
           [test_record;
            with_features ten_record
              [ambiguous_feature; pseudo_feature; ten_feature; gene_feature]];
         raised := None |} 0 true =
    calculate_codon_frequency_to_df
      {| yielded := [test_record; with_features ten_record (features ten_record)];
         raised := None |} 0 true.
Proof.
  split.
  - refine (proj2 (proj1 (order_independent true None 0
                            [ten_record; test_record] [test_record; ten_record]
                            [] [] test_record [] []) _)).
    apply perm_swap.
  - refine (proj2 (order_independent true None 0 [] [] [test_record] [] ten_record
                     [ambiguous_feature; pseudo_feature; ten_feature; gene_feature]
                     (features ten_record)) _).
    symmetry.
    apply (Permutation_rev [gene_feature; ten_feature; pseudo_feature; ambiguous_feature]).
Defined.

(** ** Counts are positive *)

Lemma foldl_incr_positive (events : list CodonAAKey) (counts : CodonAACounter) :
  (∀ k v, counts !! k = Some v → 0 < v) →
  ∀ k v, foldl (λ c k, incr k c) counts events !! k = Some v → 0 < v.
Proof.
  revert counts. induction events as [|k' events IH]; intros counts Hpos; [done|].
  simpl. apply IH. intros k v. unfold incr.
  destruct (decide (k' = k)) as [->|Hne].
  - rewrite lookup_insert_eq. intros [= <-]. lia.
  - rewrite lookup_insert_ne by done. apply Hpos.
Qed.

Lemma aggregated_positive (verbose : bool) (records : list SeqRecord)
    (key : CodonAAKey) (count : nat) :
  codon_aa_counts (process_records verbose records initial) !! key = Some count →
  0 < count.
Proof.
  rewrite process_records_events. apply foldl_incr_positive.
  intros k v. unfold initial; cbn [codon_aa_counts]. by rewrite lookup_empty.
Qed.

(** X4.  No row of a returned data frame has the count 0 or the frequency
    0: a key is in the report only if it was counted at least once. *)
Theorem rows_positive (src : source) (t : Qc) (verbose : bool) (rows : list row) :
  calculate_codon_frequency_to_df src t verbose = Some rows →
  Forall (λ r, 1 ≤ Count r ∧ (0 < Freq r)%Qc) rows.
Proof.
  rewrite calculate_build_report. destruct (raised src); [done|].
  set (counts := codon_aa_counts _). intros H.
  destruct (decide (sum_values counts = 0)) as [H0|Hne].
  { apply (build_report_None counts t) in H0. congruence. }
  rewrite (build_report_Some _ t Hne) in H. injection H as <-.
  assert (Forall (λ r, 1 ≤ Count r ∧ (0 < Freq r)%Qc) (report_data counts)) as Hall.
  { unfold report_data. rewrite list.Forall_forall. intros r Hr.
    apply list_elem_of_fmap in Hr as ([key count] & -> & Hitem).
    apply sorted_items_elem_of in Hitem.
    apply aggregated_positive in Hitem. rewrite Count_make_row, Freq_make_row.
    split; [lia|].
    unfold Qcdiv. apply Qcmult_pos_pos; [apply Qcmult_pos_pos|].
    - apply Qc_of_nat_pos. lia.
    - by apply Qcinv_pos, Qc_of_nat_pos.
    - by apply Qc_of_nat_pos. }
  destruct (decide _); [|done].
  rewrite list.Forall_forall in Hall |- *.
  intros r [_ Hr]%list_elem_of_filter. by apply Hall.
Qed.

Lemma test_source_report :
  calculate_codon_frequency_to_df test_source 0 true = Some mgg_rows.
Proof.
  rewrite calculate_build_report. cbn [raised test_source yielded].
  replace (codon_aa_counts (process_records true [test_record] initial))
    with mgg_counts by (apply map_to_list_inj; vm_compute; reflexivity).
  apply mgg_report.
Qed.

Lemma rows_positive_witness :
  Forall (λ r, 1 ≤ Count r ∧ (0 < Freq r)%Qc) mgg_rows.
Proof. exact (rows_positive test_source 0 true mgg_rows test_source_report). Defined.

(** ** START and STOP *)

Section sum_where.
Context (P : CodonAAKey → Prop) `{!∀ k, Decision (P k)}.

Lemma sum_where_insert (counts : CodonAACounter) (k : CodonAAKey) (v : nat) :
  counts !! k = None →
  sum_where P (<[k:=v]> counts) = (if decide (P k) then v else 0) + sum_where P counts.
Proof.
  intros Hk. unfold sum_where. by rewrite (map_to_list_insert _ _ _ Hk).
Qed.

Lemma sum_where_incr (counts : CodonAACounter) (k : CodonAAKey) :
  sum_where P (incr k counts) =
  sum_where P counts + (if decide (P k) then 1 else 0).
Proof.
  unfold incr. destruct (counts !! k) as [v|] eqn:Hk; simpl.
  - rewrite <-(insert_delete_id counts k v Hk) at 2.
    rewrite <-(insert_delete_eq counts).
    rewrite !sum_where_insert by apply lookup_delete_eq.
    destruct (decide (P k)); lia.
  - rewrite sum_where_insert by done. destruct (decide (P k)); lia.
Qed.

Lemma sum_where_foldl_incr (events : list CodonAAKey) (counts : CodonAACounter) :
  sum_where P (foldl (λ c k, incr k c) counts events) =
  sum_where P counts + occurrences P events.
Proof.
  unfold occurrences. revert counts.
  induction events as [|k events IH]; intros counts; simpl; [lia|].
  rewrite IH, sum_where_incr, filter_cons. destruct (decide (P k)); simpl; lia.
Qed.

Lemma sum_where_aggregated (verbose : bool) (records : list SeqRecord) :
  sum_where P (codon_aa_counts (process_records verbose records initial)) =
  occurrences P (source_events records).
Proof.
  rewrite process_records_events, sum_where_foldl_incr.
  unfold initial; cbn [codon_aa_counts]. unfold sum_where.
  by rewrite map_to_list_empty.
Qed.

Lemma occurrences_app (l1 l2 : list CodonAAKey) :
  occurrences P (l1 ++ l2) = occurrences P l1 + occurrences P l2.
Proof. unfold occurrences. by rewrite list.filter_app, length_app. Qed.

Lemma occurrences_source (records : list SeqRecord) :
  occurrences P (source_events records) =
  sum_list_with
    (λ r, sum_list_with (λ f, occurrences P (feature_events (seq r) f)) (features r))
    records.
Proof.
  unfold source_events. induction records as [|r rs IH]; [done|].
  rewrite bind_cons, occurrences_app, IH. simpl. f_equal.
  unfold record_events. induction (features r) as [|f fs IHf]; [done|].
  rewrite bind_cons, occurrences_app, IHf. done.
Qed.

Lemma occurrences_fmap {A} (g : A → CodonAAKey) (l : list A) :
  occurrences P (g <$> l) = length (filter (λ a, P (g a)) l).
Proof.
  unfold occurrences. induction l as [|a l IH]; [done|].
  rewrite fmap_cons, !filter_cons. destruct (decide (P (g a))); simpl; by rewrite IH.
Qed.
End sum_where.

Lemma range_0_seq (n : nat) :
  range 0 (n / 3 * 3) 3 = (λ j, j * 3) <$> List.seq 0 (n / 3).
Proof.
  unfold range. replace (n / 3 * 3 - 0 + 3 - 1) with (2 + n / 3 * 3) by lia.
  rewrite Nat.div_add by lia. done.
Qed.

Lemma count_first (m : nat) :
  length (filter (λ j, j = 0) (List.seq 0 m)) = 1 `min` m.
Proof.
  induction m as [|m IH]; [done|].
  rewrite seq_S, list.filter_app, length_app, IH, filter_cons, filter_nil.
  rewrite Nat.add_0_l. destruct (decide (m = 0)); cbn [length]; lia.
Qed.

Lemma count_from (L m : nat) :
  length (filter (λ j, L ≤ j) (List.seq 0 m)) = m - L.
Proof.
  induction m as [|m IH]; [done|].
  rewrite seq_S, list.filter_app, length_app, IH, filter_cons, filter_nil.
  rewrite Nat.add_0_l. destruct (decide (L ≤ m)); cbn [length]; lia.
Qed.

Lemma sum_list_with_ext' {A} (f g : A → nat) (l : list A) :
  (∀ x, x ∈ l → f x = g x) → sum_list_with f l = sum_list_with g l.
Proof.
  induction l as [|x l IH]; intros H; [done|]. simpl.
  rewrite (H x) by left. rewrite IH; [done|]. intros y Hy. apply H. by right.
Qed.

Lemma feature_starts (record_seq : string) (f : SeqFeature) :
  occurrences (λ k, k.2 = "START") (feature_events record_seq f) =
  start_codons record_seq f.
Proof.
  rewrite feature_events_counted. unfold start_codons.
  destruct (decide (Spec.counted record_seq f)) as [(_ & Hq & _)|]; [|done].
  rewrite lacks_translation_qualifier in Hq.
  assert (0 < String.length (qualifier f "translation" "")) as Hlen.
  { destruct (qualifier f "translation" ""); [done|simpl; lia]. }
  rewrite range_0_seq, <-list_fmap_compose, occurrences_fmap, <-count_first.
  f_equal. apply list_filter_iff. intros j. unfold codon_event. cbn [compose].
  destruct (decide (j * 3 / 3 < _)) as [Hj|Hj]; cbn [snd].
  - destruct (decide (j * 3 = 0)); split; (done || lia).
  - split; [done|]. intros ->. simpl in Hj. lia.
Qed.

Lemma feature_stops (record_seq : string) (f : SeqFeature) :
  occurrences (λ k, k.2 = "STOP") (feature_events record_seq f) =
  stop_codons record_seq f.
Proof.
  rewrite feature_events_counted. unfold stop_codons.
  destruct (decide (Spec.counted record_seq f)); [|done].
  rewrite range_0_seq, <-list_fmap_compose, occurrences_fmap, <-count_from.
  f_equal. apply list_filter_iff. intros j. unfold codon_event. cbn [compose].
  rewrite Nat.div_mul by lia.
  destruct (decide (j < _)) as [Hj|Hj]; cbn [snd].
  - destruct (decide (j * 3 = 0)); split; (done || lia).
  - split; [lia|done].
Qed.

(** X5.  The counts of the START keys sum to the number of counted features
    that have at least one complete codon: START is counted once for each
    of them, for its first codon. *)
Theorem start_count (verbose : bool) (records : list SeqRecord) :
  sum_where (λ k, k.2 = "START")
    (codon_aa_counts (process_records verbose records initial)) =
  sum_list_with (λ r, sum_list_with (start_codons (seq r)) (features r)) records.
Proof.
  rewrite sum_where_aggregated, occurrences_source.
  apply sum_list_with_ext'. intros r _. apply sum_list_with_ext'. intros f _.
  apply feature_starts.
Qed.

(** X6.  The counts of the STOP keys sum, over the counted features, to the
    number of complete codons past the end of the translation,
    [len // 3 - len(translation)] or 0: a feature is counted no STOP when the
    translation is as long as the codons, and several when it is shorter by
    more than one. *)
Theorem stop_count (verbose : bool) (records : list SeqRecord) :
  sum_where (λ k, k.2 = "STOP")
    (codon_aa_counts (process_records verbose records initial)) =
  sum_list_with (λ r, sum_list_with (stop_codons (seq r)) (features r)) records.
Proof.
  rewrite sum_where_aggregated, occurrences_source.
  apply sum_list_with_ext'. intros r _. apply sum_list_with_ext'. intros f _.
  apply feature_stops.
Qed.

(** ** Verbose mode, the processed count and the warnings *)

Lemma process_feature_processed (verbose : bool) (record_seq : string)
    (f : SeqFeature) (st : state) :
  total_cds_processed (process_feature verbose record_seq f st) =
  total_cds_processed st + (if decide (eligible f) then 1 else 0).
Proof.
  unfold process_feature.
  destruct (decide (eligible f)) as [(Ht & Hq & Hp)|Hn].
  - rewrite lacks_translation_qualifier in Hq.
    rewrite (decide_True _ _ Ht), (decide_False _ _ Hq), (decide_False _ _ Hp).
    destruct (issubset_valid _); simpl.
    + destruct (decide _); [destruct verbose|]; done.
    + by destruct verbose.
  - destruct (decide (type f = "CDS")) as [Ht|Ht]; [|lia].
    destruct (decide (qualifier f "translation" "" = "")) as [Hq|Hq];
      [destruct verbose; simpl; lia|].
    destruct (decide (is_Some (qualifiers f !! "pseudo"))) as [Hp|Hp];
      [destruct verbose; simpl; lia|].
    destruct Hn. unfold eligible, Spec.pseudo.
    rewrite lacks_translation_qualifier. tauto.
Qed.

Lemma process_feature_printed (verbose : bool) (record_seq : string)
    (f : SeqFeature) (st : state) :
  length (printed (process_feature verbose record_seq f st)) =
  length (printed st)
  + (if verbose then if decide (defective record_seq f) then 1 else 0 else 0).
Proof.
  assert (∀ w st', length (printed (warn verbose w st')) =
                   length (printed st') + (if verbose then 1 else 0)) as Hwarn.
  { intros w st'. destruct verbose; simpl; [|lia]. rewrite length_app. simpl. lia. }
  unfold process_feature, defective, Spec.pseudo.
  destruct (decide (type f = "CDS")) as [Ht|Ht];
    [|rewrite decide_False by tauto; destruct verbose; lia].
  destruct (decide (qualifier f "translation" "" = "")) as [Hq|Hq].
  { rewrite Hwarn, decide_True; [done|].
    rewrite lacks_translation_qualifier. tauto. }
  destruct (decide (is_Some (qualifiers f !! "pseudo"))) as [Hp|Hp].
  { rewrite Hwarn, decide_True; [done|]. tauto. }
  destruct (issubset_valid _) eqn:Hv; cbn [negb].
  - cbn [printed]. set (n := String.length (extract f record_seq)).
    assert (n ≠ n / 3 * 3 ↔ n `mod` 3 ≠ 0) as Hmod.
    { pose proof (Nat.div_mod_eq n 3). lia. }
    destruct (decide (n ≠ n / 3 * 3)) as [Hn|Hn].
    + rewrite Hwarn, decide_True; [done|]. tauto.
    + rewrite decide_False; [destruct verbose; simpl; lia|].
      rewrite lacks_translation_qualifier, only_ATCG_issubset, Hv. fold n. tauto.
  - rewrite Hwarn, decide_True; [done|].
    rewrite only_ATCG_issubset, Hv. split; [done|]. right; right; left. congruence.
Qed.

Lemma process_records_fold (verbose : bool) (records : list SeqRecord) (st : state) :
  process_records verbose records st =
  foldl (λ st sf, process_feature verbose sf.1 sf.2 st) st (all_features records).
Proof.
  unfold process_records, all_features. revert st.
  induction records as [|r rs IH]; intros st; [done|].
  rewrite bind_cons, foldl_app. cbn [foldl]. rewrite IH. f_equal.
  unfold process_record. by rewrite foldl_fmap.
Qed.

(** X7.  The [verbose] flag changes only what is printed: the counter, the
    count of processed features and the data frame returned are the same
    with and without it, and without it no warning is printed. *)
Theorem verbose_only_prints (src : source) (t : Qc) :
  calculate_codon_frequency_to_df src t true =
  calculate_codon_frequency_to_df src t false
  ∧ codon_aa_counts (process_records true (yielded src) initial) =
    codon_aa_counts (process_records false (yielded src) initial)
  ∧ total_cds_processed (process_records true (yielded src) initial) =
    total_cds_processed (process_records false (yielded src) initial)
  ∧ printed (process_records false (yielded src) initial) = [].
Proof.
  assert (codon_aa_counts (process_records true (yielded src) initial) =
          codon_aa_counts (process_records false (yielded src) initial)) as Hc
    by (by rewrite !process_records_events).
  split; [|split; [done|split]].
  - rewrite !calculate_build_report. by rewrite Hc.
  - rewrite !process_records_fold.
    assert (∀ l (st st' : state), total_cds_processed st = total_cds_processed st' →
      total_cds_processed (foldl (λ st sf, process_feature true sf.1 sf.2 st) st l) =
      total_cds_processed (foldl (λ st sf, process_feature false sf.1 sf.2 st) st' l))
      as H.
    { induction l as [|[s f] l IH]; intros st st' E; [done|]. simpl.
      apply IH. rewrite !process_feature_processed. by rewrite E. }
    by apply H.
  - apply length_zero_iff_nil. rewrite process_records_fold.
    assert (∀ l (st : state),
      length (printed (foldl (λ st sf, process_feature false sf.1 sf.2 st) st l)) =
      length (printed st)) as H.
    { induction l as [|[s f] l IH]; intros st; [done|]. simpl.
      rewrite IH, process_feature_printed. lia. }
    by rewrite H.
Qed.

(** X8.  The number reported as processed CDS features is the number of CDS
    features with a translation and without a [pseudo] qualifier: it
    includes the features that are then skipped for a base other than
    A, T, C, G, and so is the number of counted features plus the number of
    those. *)
Theorem processed_count (verbose : bool) (records : list SeqRecord) :
  total_cds_processed (process_records verbose records initial) =
  length (filter (λ sf, eligible sf.2) (all_features records))
  ∧ length (filter (λ sf, eligible sf.2) (all_features records)) =
    length (filter (λ sf, Spec.counted sf.1 sf.2) (all_features records))
    + length (filter (λ sf, eligible sf.2 ∧ ¬ Spec.only_ATCG (extract sf.2 sf.1))
                (all_features records)).
Proof.
  split.
  - rewrite process_records_fold.
    assert (∀ l (st : state),
      total_cds_processed (foldl (λ st sf, process_feature verbose sf.1 sf.2 st) st l) =
      total_cds_processed st + length (filter (λ sf, eligible sf.2) l)) as H.
    { induction l as [|[s f] l IH]; intros st; [simpl; lia|]. simpl.
      rewrite IH, process_feature_processed, filter_cons. cbn [snd].
      destruct (decide (eligible f)); simpl; lia. }
    by rewrite H.
  - induction (all_features records) as [|[s f] l IH]; [done|].
    rewrite !filter_cons. cbn [fst snd]. unfold Spec.counted, eligible in *.
    destruct (decide (type f = "CDS" ∧ ¬ Spec.lacks_translation f ∧ ¬ Spec.pseudo f))
      as [He|He].
    + destruct (decide (Spec.only_ATCG (extract f s))) as [Hv|Hv].
      * rewrite decide_True by tauto. rewrite decide_False by tauto.
        simpl. rewrite IH. lia.
      * rewrite decide_False by tauto. rewrite decide_True by tauto.
        simpl. rewrite IH. lia.
    + rewrite decide_False by tauto. rewrite decide_False by tauto. done.
Qed.


(** ** Upper and lower case in the sequence *)

(** X10.  The case of the letters of the sequence does not matter: two
    features with the same type and qualifiers whose extracted sequences
    agree after upper-casing change the state in the same way, warnings
    included, and can replace each other anywhere in the input without
    changing the data frame returned. *)
Theorem case_insensitive (verbose : bool) (e : option exn) (t : Qc)
    (before after : list SeqRecord) (r : SeqRecord)
    (fs1 fs2 : list SeqFeature) (f g : SeqFeature) :
  type f = type g →
  qualifiers f = qualifiers g →
  Str.upper (extract f (seq r)) = Str.upper (extract g (seq r)) →
  (∀ st, process_feature verbose (seq r) f st = process_feature verbose (seq r) g st)
  ∧ calculate_codon_frequency_to_df
      {| yielded := before ++ with_features r (fs1 ++ [f] ++ fs2) :: after;
         raised := e |} t verbose =
    calculate_codon_frequency_to_df
      {| yielded := before ++ with_features r (fs1 ++ [g] ++ fs2) :: after;
         raised := e |} t verbose.
Proof.
  intros Ht Hq Hu.
  assert (String.length (extract f (seq r)) = String.length (extract g (seq r))) as Hl.
  { by rewrite <-(upper_length (extract f _)), Hu, upper_length. }
  assert (∀ st, process_feature verbose (seq r) f st =
                process_feature verbose (seq r) g st) as Hpf.
  { intros st. unfold process_feature, qualifier. by rewrite Ht, Hq, Hu, Hl. }
  split; [done|].
  apply calculate_exchange, process_records_exchange. intros st. cbn [foldl].
  by rewrite Hpf.
Qed.

Lemma case_insensitive_witness :
  calculate_codon_frequency_to_df
    {| yielded := [with_features ten_record [gene_feature; ten_feature]];
       raised := None |} 0 true =
  calculate_codon_frequency_to_df
    {| yielded := [with_features ten_record [gene_feature; ten_feature_upper]];
       raised := None |} 0 true.
Proof.
  refine (proj2 (case_insensitive true None 0 [] [] ten_record [gene_feature] []
                   ten_feature ten_feature_upper _ _ _)); reflexivity.
Defined.

(** ** The shape of the rows *)

Lemma codon_event_shape (s t : string) (i : nat) :
  String.length (codon_event s t i).1.2 = 1
  ∧ ((codon_event s t i).2 = "" ∨ (codon_event s t i).2 = "START"
     ∨ (codon_event s t i).2 = "STOP").
Proof.
  unfold codon_event. destruct (decide (i / 3 < String.length t)) as [Hi|Hi]; cbn [fst snd].
  - split; [by apply index_length|]. destruct (decide (i = 0)); auto.
  - auto.
Qed.

(** X11.  Every row of a returned data frame has a codon of exactly three
    letters among A, T, C, G, an amino acid of one character, and the
    special type "", "START" or "STOP"; the amino acid of a STOP row is
    "*". *)
Theorem rows_well_formed (src : source) (t : Qc) (verbose : bool) (rows : list row) :
  calculate_codon_frequency_to_df src t verbose = Some rows →
  Forall row_shape rows.
Proof.
  rewrite calculate_build_report. destruct (raised src); [done|].
  set (counts := codon_aa_counts _). intros H.
  destruct (decide (sum_values counts = 0)) as [H0|Hne].
  { apply (build_report_None counts t) in H0. congruence. }
  rewrite (build_report_Some _ t Hne) in H. injection H as <-.
  assert (Forall row_shape (report_data counts)) as Hall.
  { unfold report_data. rewrite list.Forall_forall. intros row Hr.
    apply list_elem_of_fmap in Hr as ([key count] & -> & Hitem).
    apply sorted_items_elem_of in Hitem.
    assert (is_Some (counts !! key)) as Hin by (by eexists).
    pose proof (aggregated_stop verbose (yielded src) key Hin) as Hstop.
    pose proof (row_key_make_row (sum_values counts) key count Hstop) as Hkey.
    unfold counts in Hin.
    apply (proj1 (process_records_lookup _ _ _ _)) in Hin.
    unfold initial in Hin; cbn [codon_aa_counts] in Hin.
    rewrite lookup_empty in Hin.
    destruct Hin as [Hin|(r & f & i & _ & _ & Hc)]; [by destruct Hin|].
    pose proof (codon_event_invariant _ _ _ _ Hc) as Hinv.
    destruct Hc as (_ & _ & Hev).
    pose proof (codon_event_shape (Str.upper (extract f (seq r)))
                  (qualifier f "translation" "") i) as Hshape.
    rewrite <-Hev in Hshape. unfold row_key in Hkey.
    destruct key as [[codon aa_code] special_type].
    cbn [make_row Codon Amino_Acid Special_Type] in Hkey. injection Hkey as Ha.
    unfold row_shape. cbn [make_row Codon Amino_Acid Special_Type]. rewrite Ha.
    unfold event_invariant in Hinv. cbn [fst snd] in *. tauto. }
  destruct (decide _); [|done].
  rewrite list.Forall_forall in Hall |- *.
  intros row [_ Hr]%list_elem_of_filter. by apply Hall.
Qed.

Lemma rows_well_formed_witness : Forall row_shape mgg_rows.
Proof. exact (rows_well_formed test_source 0 true mgg_rows test_source_report). Defined.

(** ** The export *)

Lemma lower_upper_ascii (c : ascii) :
  Utils.lower_ascii (Str.upper_ascii c) = Utils.lower_ascii c.
Proof. destruct c as [[] [] [] [] [] [] [] []]; reflexivity. Qed.

Lemma lower_lower_ascii (c : ascii) :
  Utils.lower_ascii (Utils.lower_ascii c) = Utils.lower_ascii c.
Proof. destruct c as [[] [] [] [] [] [] [] []]; reflexivity. Qed.

Lemma lower_upper (s : string) : Utils.lower (Str.upper s) = Utils.lower s.
Proof. induction s as [|c s IH]; simpl; [done|]. by rewrite lower_upper_ascii, IH. Qed.

Lemma lower_lower (s : string) : Utils.lower (Utils.lower s) = Utils.lower s.
Proof. induction s as [|c s IH]; simpl; [done|]. by rewrite lower_lower_ascii, IH. Qed.

(** The chain of comparisons of the extension is the lookup in the table,
    and the branch of the inner chain that calls no writer is never taken. *)
Lemma export_cases (pandas : Utils.writer → list row → Utils.outcome)
    (df : list row) (suffix : string) (verbose : bool) :
  let ext := Utils.lower suffix in
  let start := if verbose then [Utils.CreatingReport ext] else [] in
  Utils.export_results_to_file pandas df suffix verbose =
  match Utils.writer_of ext with
  | Some w =>
      match pandas w df with
      | Utils.Returns =>
          (start ++ [Utils.Write w df]
             ++ (if verbose then [Utils.Exported (length df)] else []), true)
      | Utils.RaisesImportError =>
          (start ++ [Utils.Write w df; Utils.DependencyError ext], false)
      | Utils.RaisesException =>
          (start ++ [Utils.Write w df; Utils.UnexpectedError], false)
      end
  | None => (start ++ [Utils.UnsupportedExtension ext], false)
  end.
Proof.
  intros ext start. unfold Utils.export_results_to_file. cbv zeta.
  fold ext. fold start. clearbody start. clearbody ext.
  destruct (decide (ext = ".xlsx")) as [->|H1]; [done|].
  destruct (decide (ext = ".csv")) as [->|H2]; [done|].
  destruct (decide (ext = ".tsv")) as [->|H3]; [done|].
  destruct (decide (ext = ".json")) as [->|H4]; [done|].
  destruct (decide (ext = ".pickle")) as [->|H5]; [done|].
  destruct (decide (ext = ".xml")) as [->|H6]; [done|].
  destruct (decide (ext ∈ [".feather"; ".parquet"; ".orc"])) as [Hin|Hnin].
  - destruct (decide (ext = ".feather")) as [->|H7]; [done|].
    destruct (decide (ext = ".parquet")) as [->|H8]; [done|].
    destruct (decide (ext = ".orc")) as [->|H9]; [done|].
    rewrite !elem_of_cons, elem_of_nil in Hin. tauto.
  - replace (Utils.writer_of ext) with (@None Utils.writer); [done|].
    symmetry. unfold Utils.writer_of. apply not_elem_of_list_to_map.
    rewrite !fmap_cons, fmap_nil. cbn [fst].
    rewrite !elem_of_cons, elem_of_nil in Hnin. rewrite !elem_of_cons, elem_of_nil.
    tauto.
Qed.

(** X12.  For a suffix of ASCII characters the export returns [True]
    exactly when the lower-cased suffix is one of the nine extensions of
    the table and the writer of that extension returns; an exception of the
    writer gives [False].  The writer of the extension is called once when
    the extension is in the table, and no writer is called when it is not;
    no other writer is ever called. *)
Theorem export_succeeds_iff (pandas : Utils.writer → list row → Utils.outcome)
    (df : list row) (suffix : string) (verbose : bool) :
  Utils.is_ascii suffix →
  let run := Utils.export_results_to_file pandas df suffix verbose in
  (run.2 = true ↔
     ∃ w, Utils.writer_of (Utils.lower suffix) = Some w ∧ pandas w df = Utils.Returns)
  ∧ Utils.writes run.1 =
    match Utils.writer_of (Utils.lower suffix) with
    | Some w => [(w, df)]
    | None => []
    end.
Proof.
  intros _ run. unfold run. rewrite export_cases.
  destruct (Utils.writer_of (Utils.lower suffix)) as [w|].
  - destruct (pandas w df) eqn:E; cbn [fst snd].
    + split; [split; [eauto|done]|]. by destruct verbose.
    + split; [|by destruct verbose]. split; [done|]. intros (w' & [= <-] & ?). congruence.
    + split; [|by destruct verbose]. split; [done|]. intros (w' & [= <-] & ?). congruence.
  - cbn [fst snd]. split; [|by destruct verbose]. split; [done|]. by intros (w' & [=] & _).
Qed.

Lemma export_succeeds_iff_witness :
  (Utils.export_results_to_file pandas_without_pyarrow mgg_rows ".CSV" false).2 = true
  ∧ Utils.writes
      (Utils.export_results_to_file pandas_without_pyarrow mgg_rows ".CSV" false).1 =
    [(Utils.to_csv ",", mgg_rows)]
  ∧ (Utils.export_results_to_file pandas_without_pyarrow mgg_rows ".parquet" false).2 ≠ true
  ∧ Utils.writes
      (Utils.export_results_to_file pandas_without_pyarrow mgg_rows ".txt" false).1 = [].
Proof.
  assert (Utils.is_ascii ".CSV") as A1 by compute_done.
  assert (Utils.is_ascii ".parquet") as A2 by compute_done.
  assert (Utils.is_ascii ".txt") as A3 by compute_done.
  destruct (export_succeeds_iff pandas_without_pyarrow mgg_rows ".CSV" false A1)
    as [Hok Hw].
  destruct (export_succeeds_iff pandas_without_pyarrow mgg_rows ".parquet" false A2)
    as [Hok' _].
  destruct (export_succeeds_iff pandas_without_pyarrow mgg_rows ".txt" false A3)
    as [_ Hw''].
  split; [|split; [|split]].
  - apply Hok. exists (Utils.to_csv ","). split; reflexivity.
  - exact Hw.
  - intros H. apply Hok' in H as (w & Hw' & Hr).
    injection Hw' as <-. discriminate Hr.
  - exact Hw''.
Defined.

(** X13.  The extension is matched without regard to the case of its
    letters: for two suffixes of ASCII characters that agree after
    lower-casing, whatever the writers do on the two paths, the export
    calls the same writer or none for both, reports an unsupported
    extension for both or for neither, and returns the same result when the
    writers do the same. *)
Theorem export_extension_ignores_case
    (pandas pandas' : Utils.writer → list row → Utils.outcome)
    (df : list row) (suffix suffix' : string) (verbose : bool) :
  Utils.is_ascii suffix → Utils.is_ascii suffix' →
  Utils.lower suffix' = Utils.lower suffix →
  let run := Utils.export_results_to_file pandas df suffix verbose in
  let run' := Utils.export_results_to_file pandas' df suffix' verbose in
  (Utils.writes run'.1).*1 = (Utils.writes run.1).*1
  ∧ (∀ ext, Utils.UnsupportedExtension ext ∈ run'.1 ↔
            Utils.UnsupportedExtension ext ∈ run.1)
  ∧ ((∀ w, pandas' w df = pandas w df) → run'.2 = run.2).
Proof.
  intros _ _ Hlow. cbv zeta. rewrite !export_cases. cbv zeta. rewrite Hlow.
  destruct (Utils.writer_of (Utils.lower suffix)) as [w|]; [|done].
  split; [|split].
  - by destruct (pandas w df), (pandas' w df), verbose.
  - intros ext.
    assert (∀ (p : Utils.writer → list row → Utils.outcome),
      Utils.UnsupportedExtension ext ∉
        (match p w df with
         | Utils.Returns =>
             ((if verbose then [Utils.CreatingReport (Utils.lower suffix)] else [])
                ++ [Utils.Write w df]
                ++ (if verbose then [Utils.Exported (length df)] else []), true)
         | Utils.RaisesImportError =>
             ((if verbose then [Utils.CreatingReport (Utils.lower suffix)] else [])
                ++ [Utils.Write w df; Utils.DependencyError (Utils.lower suffix)], false)
         | Utils.RaisesException =>
             ((if verbose then [Utils.CreatingReport (Utils.lower suffix)] else [])
                ++ [Utils.Write w df; Utils.UnexpectedError], false)
         end).1) as Hnot.
    { intros p. destruct (p w df), verbose; cbn [fst app];
        rewrite ?elem_of_cons, elem_of_nil; intros H; destruct_or!; done. }
    split; intros H; by apply Hnot in H.
  - intros Hsame. by rewrite Hsame.
Qed.

Lemma export_extension_ignores_case_witness :
  (Utils.writes
     (Utils.export_results_to_file pandas_without_pyarrow mgg_rows ".JSON" true).1).*1 =
  (Utils.writes
     (Utils.export_results_to_file (λ _ _, Utils.RaisesException) mgg_rows ".Json" true).1).*1
  ∧ (Utils.export_results_to_file pandas_without_pyarrow mgg_rows ".PARQUET" false).2 =
    (Utils.export_results_to_file pandas_without_pyarrow mgg_rows ".parquet" false).2.
Proof.
  assert (Utils.is_ascii ".Json") as A1 by compute_done.
  assert (Utils.is_ascii ".JSON") as A2 by compute_done.
  assert (Utils.is_ascii ".parquet") as A3 by compute_done.
  assert (Utils.is_ascii ".PARQUET") as A4 by compute_done.
  split.
  - exact (proj1 (export_extension_ignores_case (λ _ _, Utils.RaisesException)
                    pandas_without_pyarrow mgg_rows ".Json" ".JSON" true A1 A2 eq_refl)).
  - exact (proj2 (proj2 (export_extension_ignores_case pandas_without_pyarrow
                           pandas_without_pyarrow mgg_rows ".parquet" ".PARQUET" false
                           A3 A4 eq_refl)) (λ _, eq_refl)).
Defined.

(** ** The whole run *)

Lemma export_not_verbose (pandas : Utils.writer → list row → Utils.outcome)
    (df : list row) (suffix : string) :
  let res := Utils.export_results_to_file pandas df suffix false in
  (∃ w, pandas w df = Utils.Returns ∧ res = ([Utils.Write w df], true))
  ∨ (∃ w msg, pandas w df ≠ Utils.Returns
              ∧ (msg = Utils.DependencyError (Utils.lower suffix)
                 ∨ msg = Utils.UnexpectedError)
              ∧ res = ([Utils.Write w df; msg], false))
  ∨ res = ([Utils.UnsupportedExtension (Utils.lower suffix)], false).
Proof.
  cbv zeta. rewrite export_cases.
  destruct (Utils.writer_of (Utils.lower suffix)) as [w|]; [|auto].
  destruct (pandas w df) eqn:E; [left|right; left|right; left].
  - by exists w.
  - exists w, (Utils.DependencyError (Utils.lower suffix)). rewrite E. auto.
  - exists w, Utils.UnexpectedError. rewrite E. auto.
Qed.

(** X14.  Whatever the output path and whatever the writers do, the run
    returns the data frame of [calculate_codon_frequency_to_df], and when
    there is one it hands it over exactly once: by a call of a writer that
    returns, or else by the table on the console.  The fall-back message is
    printed exactly when an output path was given and the export failed.
    When nothing is returned, no writer is called and no table printed. *)
Theorem report_delivered_once (pandas : Utils.writer → list row → Utils.outcome)
    (file_exists is_file : bool) (input_file_name : string) (src : source)
    (output : option string) (no_freq_filter verbose : bool) :
  let run := Pipeline.run_codon_analysis pandas file_exists is_file input_file_name
               src output no_freq_filter verbose in
  run.2 = run_codon_analysis file_exists is_file src no_freq_filter verbose
  ∧ match run.2 with
    | Some df =>
        length (filter (Utils.delivers pandas df) run.1) = 1
        ∧ (Utils.FallingBack ∈ run.1 ↔
           ∃ suffix, output = Some suffix
             ∧ (Utils.export_results_to_file pandas df suffix false).2 = false)
    | None =>
        Utils.writes run.1 = [] ∧ ∀ name total rows, Utils.Report name total rows ∉ run.1
    end.
Proof.
  cbv zeta. unfold Pipeline.run_codon_analysis, run_codon_analysis.
  destruct (negb file_exists || negb is_file).
  { cbn [fst snd]. split; [done|]. split; [done|].
    intros ??? [=]%list_elem_of_singleton. }
  destruct (calculate_codon_frequency_to_df _ _ _) as [df|].
  2:{ cbn [fst snd]. split; [done|]. destruct verbose; (split; [done|]).
      - intros ??? [=]%list_elem_of_singleton.
      - intros ??? []%elem_of_nil. }
  destruct output as [suffix|].
  2:{ unfold Utils.print_results. cbn [fst snd]. split; [done|]. split.
      - rewrite filter_cons, filter_nil. by rewrite decide_True.
      - split; [intros [=]%list_elem_of_singleton|]. by intros (? & [=] & _). }
  destruct (export_not_verbose pandas df suffix)
    as [(w & Hr & E)|[(w & msg & Hr & Hmsg & E)|E]]; rewrite E; cbn [fst snd negb].
  - split; [done|]. split.
    + rewrite filter_cons, filter_nil. by rewrite decide_True.
    + split; [intros [=]%list_elem_of_singleton|]. intros (s' & [= <-] & H).
      by rewrite E in H.
  - split; [done|]. split.
    + unfold Utils.print_results. cbn [app]. rewrite !filter_cons, filter_nil.
      rewrite (decide_False (P := Utils.delivers pandas df (Utils.Write w df)))
        by (intros [_ ?]; done).
      rewrite (decide_False (P := Utils.delivers pandas df msg))
        by (destruct Hmsg as [-> | ->]; simpl; tauto).
      rewrite (decide_False (P := Utils.delivers pandas df Utils.FallingBack))
        by (simpl; tauto).
      by rewrite decide_True.
    + split.
      * intros _. exists suffix. split; [done|]. by rewrite E.
      * intros _. rewrite !elem_of_app, !elem_of_cons. auto.
  - split; [done|]. split.
    + unfold Utils.print_results. cbn [app]. rewrite !filter_cons, filter_nil.
      rewrite (decide_False (P := Utils.delivers pandas df (Utils.UnsupportedExtension _)))
        by (simpl; tauto).
      rewrite (decide_False (P := Utils.delivers pandas df Utils.FallingBack))
        by (simpl; tauto).
      by rewrite decide_True.
    + split.
      * intros _. exists suffix. split; [done|]. by rewrite E.
      * intros _. rewrite !elem_of_app, !elem_of_cons. auto.
Qed.

(** ** The total that is printed *)

Lemma sum_list_with_sublist {A} (f : A → nat) (l1 l2 : list A) :
  l1 `sublist_of` l2 → sum_list_with f l1 ≤ sum_list_with f l2.
Proof. induction 1; simpl; lia. Qed.

Lemma sum_list_fmap_with {A} (f : A → nat) (l : list A) :
  sum_list (f <$> l) = sum_list_with f l.
Proof. induction l as [|x l IH]; [done|]. rewrite fmap_cons. simpl. by rewrite IH. Qed.

Lemma calculate_counts_sum (src : source) (t : Qc) (verbose : bool) (rows : list row) :
  calculate_codon_frequency_to_df src t verbose = Some rows →
  sum_list (Count <$> rows) ≤ Spec.total_complete_codons (yielded src)
  ∧ (¬ (0 < t)%Qc →
     sum_list (Count <$> rows) = Spec.total_complete_codons (yielded src)).
Proof.
  rewrite calculate_build_report. destruct (raised src); [done|].
  set (counts := codon_aa_counts _). intros H.
  destruct (decide (sum_values counts = 0)) as [H0|Hne].
  { apply (build_report_None counts t) in H0. congruence. }
  rewrite (build_report_Some _ t Hne) in H. injection H as <-.
  assert (sum_list (Count <$> report_data counts) =
          Spec.total_complete_codons (yielded src)) as Hall.
  { rewrite Count_report_data, <-sum_values_sorted. unfold counts.
    rewrite process_records_sum. unfold initial; cbn [codon_aa_counts].
    by rewrite sum_values_empty. }
  destruct (decide (0 < t)%Qc) as [Ht|Ht]; [|by rewrite Hall].
  split; [|done]. rewrite <-Hall, !sum_list_fmap_with.
  apply sum_list_with_sublist, sublist_filter.
Qed.

(** X15.  A table printed by the run has the name of the input file, the
    rows of the data frame returned, and as its total the sum of the counts
    of these rows.  This total is at most the number of complete codons of
    the counted features, and equal to it when the filter is disabled; with
    the filter it leaves out the codons of the rows that were dropped. *)
Theorem printed_total (pandas : Utils.writer → list row → Utils.outcome)
    (file_exists is_file : bool) (input_file_name : string) (src : source)
    (output : option string) (no_freq_filter verbose : bool)
    (name : string) (total : nat) (rows : list row) :
  let run := Pipeline.run_codon_analysis pandas file_exists is_file input_file_name
               src output no_freq_filter verbose in
  Utils.Report name total rows ∈ run.1 →
  name = input_file_name
  ∧ run.2 = Some rows
  ∧ total = sum_list (Count <$> rows)
  ∧ total ≤ Spec.total_complete_codons (yielded src)
  ∧ (no_freq_filter = true → total = Spec.total_complete_codons (yielded src)).
Proof.
  cbv zeta. unfold Pipeline.run_codon_analysis.
  destruct (negb file_exists || negb is_file).
  { by intros [=]%list_elem_of_singleton. }
  destruct (calculate_codon_frequency_to_df _ _ _) as [df|] eqn:Hdf.
  2:{ destruct verbose; cbn [fst].
      - by intros [=]%list_elem_of_singleton.
      - by intros []%elem_of_nil. }
  assert (Utils.Report name total rows ∈ Utils.print_results df input_file_name →
          name = input_file_name ∧ Some df = Some rows
          ∧ total = sum_list (Count <$> rows)
          ∧ total ≤ Spec.total_complete_codons (yielded src)
          ∧ (no_freq_filter = true →
             total = Spec.total_complete_codons (yielded src))) as Hprint.
  { unfold Utils.print_results. intros [= -> -> ->]%list_elem_of_singleton.
    destruct (calculate_counts_sum _ _ _ _ Hdf) as [Hle Heq].
    repeat split; try done. intros ->. apply Heq. by intros ?%Qclt_not_eq. }
  destruct output as [suffix|]; [|done].
  destruct (export_not_verbose pandas df suffix)
    as [(w & Hr & E)|[(w & msg & Hr & Hmsg & E)|E]]; rewrite E; cbn [fst snd negb].
  - by intros [=]%list_elem_of_singleton.
  - rewrite !elem_of_app, !elem_of_cons, elem_of_nil. intros H.
    destruct_or!; try done; try congruence; by apply Hprint.
  - rewrite !elem_of_app, !elem_of_cons, elem_of_nil. intros H.
    destruct_or!; try done; by apply Hprint.
Qed.

Lemma printed_total_witness :
  "sample.gbff" = "sample.gbff"
  ∧ (Pipeline.run_codon_analysis pandas_without_pyarrow true true "sample.gbff"
       test_source (Some ".parquet") true true).2 = Some mgg_rows
  ∧ 3 = sum_list (Count <$> mgg_rows)
  ∧ 3 ≤ Spec.total_complete_codons (yielded test_source)
  ∧ (true = true → 3 = Spec.total_complete_codons (yielded test_source)).
Proof.
  apply (printed_total pandas_without_pyarrow true true "sample.gbff" test_source
           (Some ".parquet") true true "sample.gbff" 3 mgg_rows).
  unfold Pipeline.run_codon_analysis. cbn [negb orb].
  rewrite test_source_report, export_cases.
  change (Utils.writer_of (Utils.lower ".parquet")) with (Some Utils.to_parquet).
  cbn [pandas_without_pyarrow fst snd negb app Utils.print_results].
  rewrite !elem_of_cons. repeat (first [left; reflexivity | right]).
Defined.

(** ** The thresholds *)

Lemma filter_ext_in {A} (P Q : A → Prop) `{!∀ x, Decision (P x), !∀ x, Decision (Q x)}
    (l : list A) :
  (∀ x, x ∈ l → P x ↔ Q x) → filter P l = filter Q l.
Proof.
  induction l as [|x l IH]; intros Hext; [done|].
  rewrite !filter_cons. rewrite IH by (intros y Hy; apply Hext; by right).
  destruct (decide (P x)) as [HP|HP], (decide (Q x)) as [HQ|HQ]; try done.
  - destruct HQ. apply Hext; [left|done].
  - destruct HP. apply Hext; [left|done].
Qed.

Lemma Qc_of_nat_mul (a b : nat) : Qc_of_nat (a * b) = (Qc_of_nat a * Qc_of_nat b)%Qc.
Proof. unfold Qc_of_nat. by rewrite Nat2Z.inj_mul, Z2Qc_inj_mul. Qed.

Lemma default_threshold_counts (count T : nat) :
  T ≠ 0 →
  (DEFAULT_MIN_FREQ ≤ Qc_of_nat count / Qc_of_nat T * Qc_of_nat 100)%Qc ↔
  T ≤ 2000 * count.
Proof.
  intros HT. pose proof (Qc_of_nat_pos T HT) as Hpos.
  assert (Qc_of_nat T ≠ 0%Qc) as Hne
    by (intros E; rewrite E in Hpos; by apply Qclt_not_eq in Hpos).
  assert (0 < Qc_of_nat T * Qc_of_nat 20)%Qc as Hm
    by (apply Qcmult_pos_pos; [done|by apply Qc_of_nat_pos]).
  rewrite (Qcmult_le_mono_pos_r _ _ _ Hm).
  assert ((DEFAULT_MIN_FREQ * (Qc_of_nat T * Qc_of_nat 20))%Qc = Qc_of_nat T) as ->.
  { assert ((DEFAULT_MIN_FREQ * Qc_of_nat 20)%Qc = 1%Qc) as E
      by (apply Qc_is_canon; reflexivity).
    rewrite (Qcmult_comm (Qc_of_nat T)), Qcmult_assoc, E. ring. }
  assert ((Qc_of_nat count / Qc_of_nat T * Qc_of_nat 100
           * (Qc_of_nat T * Qc_of_nat 20))%Qc = Qc_of_nat (2000 * count)) as ->.
  { rewrite Qc_of_nat_mul.
    assert (Qc_of_nat 2000 = (Qc_of_nat 100 * Qc_of_nat 20)%Qc) as ->
      by (by rewrite <-Qc_of_nat_mul).
    field. done. }
  unfold Qc_of_nat. rewrite <-Z2Qc_inj_le. lia.
Qed.

(** X16.  With the default threshold a row is kept exactly when its codon
    makes up at least one in 2000 of the codons counted: the rows returned
    are the rows of the unfiltered report whose count times 2000 is at least
    the sum of the counts. *)
Theorem default_filter_one_in_2000 (src : source) (verbose : bool) (rows0 : list row) :
  calculate_codon_frequency_to_df src 0 verbose = Some rows0 →
  run_codon_analysis true true src false verbose =
  Some (filter (λ r, sum_list (Count <$> rows0) ≤ 2000 * Count r) rows0).
Proof.
  unfold run_codon_analysis. cbn [negb orb].
  rewrite !calculate_build_report. destruct (raised src); [done|].
  set (counts := codon_aa_counts _). intros H.
  rewrite (build_report_filter _ _ _ DEFAULT_MIN_FREQ_pos H). f_equal.
  destruct (decide (sum_values counts = 0)) as [H0|Hne].
  { apply (build_report_None counts 0) in H0. congruence. }
  rewrite (build_report_Some _ 0 Hne) in H.
  rewrite decide_False in H by (by intros ?%Qclt_not_eq). injection H as <-.
  rewrite Count_report_data, <-sum_values_sorted.
  apply filter_ext_in. intros r Hr.
  pose proof (report_data_Freq counts) as HF. rewrite list.Forall_forall in HF.
  rewrite (HF r Hr). by apply default_threshold_counts.
Qed.

Lemma default_filter_one_in_2000_witness :
  run_codon_analysis true true test_source false true =
  Some (filter (λ r, sum_list (Count <$> mgg_rows) ≤ 2000 * Count r) mgg_rows).
Proof. exact (default_filter_one_in_2000 test_source true mgg_rows test_source_report). Defined.

Lemma filter_none {A} (P : A → Prop) `{!∀ x, Decision (P x)} (l : list A) :
  Forall (λ x, ¬ P x) l → filter P l = [].
Proof.
  induction 1 as [|x l Hx _ IH]; [done|].
  by rewrite filter_cons, decide_False, IH.
Qed.

(** X17.  A threshold of 0 or below disables the filter, and a threshold
    above 100 removes every row: the report is then present and empty. *)
Theorem threshold_edges (src : source) (verbose : bool) (t : Qc) (rows0 : list row) :
  calculate_codon_frequency_to_df src 0 verbose = Some rows0 →
  ((t ≤ 0)%Qc → calculate_codon_frequency_to_df src t verbose = Some rows0)
  ∧ ((Qc_of_nat 100 < t)%Qc → calculate_codon_frequency_to_df src t verbose = Some []).
Proof.
  rewrite !calculate_build_report. destruct (raised src); [done|].
  set (counts := codon_aa_counts _). intros H.
  destruct (decide (sum_values counts = 0)) as [H0|Hne].
  { apply (build_report_None counts 0) in H0. congruence. }
  rewrite (build_report_Some _ 0 Hne) in H.
  rewrite decide_False in H by (by intros ?%Qclt_not_eq). injection H as <-.
  rewrite (build_report_Some _ t Hne). split.
  - intros Ht. rewrite decide_False; [done|]. by apply Qcle_not_lt.
  - intros Ht. rewrite decide_True.
    + f_equal. apply filter_none.
      pose proof (report_data_bounds counts Hne) as HB.
      rewrite list.Forall_forall in HB. rewrite list.Forall_forall.
      intros r Hr. apply Qclt_not_le. eapply Qcle_lt_trans; [|exact Ht].
      by apply HB.
    + eapply Qcle_lt_trans; [|exact Ht]. apply Qc_of_nat_nonneg.
Qed.

Lemma threshold_edges_witness :
  calculate_codon_frequency_to_df test_source (- Qc_of_nat 1) true = Some mgg_rows
  ∧ calculate_codon_frequency_to_df test_source (Qc_of_nat 101) true = Some [].
Proof.
  destruct (threshold_edges test_source true (- Qc_of_nat 1) mgg_rows test_source_report)
    as [Hneg _].
  destruct (threshold_edges test_source true (Qc_of_nat 101) mgg_rows test_source_report)
    as [_ Hbig].
  split.
  - apply Hneg. vm_compute. discriminate.
  - apply Hbig. vm_compute. reflexivity.
Defined.

(** * Exceptions of the loop body *)

Lemma try_process_feature_ok (verbose : bool) (record_seq : string)
    (f : Try.SeqFeature) (st : state) :
  ¬ raises_at record_seq f →
  Try.process_feature verbose record_seq f st =
  (process_feature verbose record_seq (forget_feature f) st, None).
Proof.
  unfold raises_at, eligible, Spec.pseudo. rewrite lacks_translation_qualifier.
  unfold Try.process_feature, process_feature, Try.qualifier, qualifier.
  cbn [forget_feature type qualifiers extract]. intros Hn.
  destruct (decide (Try.type f = "CDS")) as [Ht|Ht]; [|done].
  destruct (decide (_ = "")) as [Hq|Hq]; [done|].
  destruct (decide (is_Some _)) as [Hp|Hp]; [done|].
  destruct (Try.extract f record_seq) as [e|cds_seq] eqn:He.
  - destruct Hn. unfold qualifier. cbn [forget_feature qualifiers]. tauto.
  - by destruct (negb _).
Qed.

Lemma try_process_feature_raises (verbose : bool) (record_seq : string)
    (f : Try.SeqFeature) (st : state) :
  raises_at record_seq f →
  ∃ e, Try.process_feature verbose record_seq f st =
       ({| codon_aa_counts := codon_aa_counts st;
           total_cds_processed := total_cds_processed st + 1;
           printed := printed st |}, Some e).
Proof.
  unfold raises_at, eligible, Spec.pseudo. rewrite lacks_translation_qualifier.
  unfold Try.process_feature, Try.qualifier, qualifier.
  cbn [forget_feature type qualifiers extract]. intros ((Ht & Hq & Hp) & He).
  rewrite (decide_True _ _ Ht), (decide_False _ _ Hq), (decide_False _ _ Hp).
  destruct (Try.extract f record_seq) as [e|cds_seq]; [by exists e|done].
Qed.

Lemma try_process_features (verbose : bool) (record_seq : string)
    (fs : list Try.SeqFeature) (st : state) :
  if decide (Exists (raises_at record_seq) fs)
  then ∃ st' e, Try.process_features verbose record_seq fs st = (st', Some e)
  else Try.process_features verbose record_seq fs st =
       (foldl (λ st f, process_feature verbose record_seq f st) st
          (forget_feature <$> fs), None).
Proof.
  revert st. induction fs as [|f fs IH]; intros st.
  { rewrite decide_False by (by intros ?%Exists_nil). done. }
  cbn [Try.process_features]. rewrite fmap_cons. cbn [foldl].
  destruct (decide (raises_at record_seq f)) as [Hf|Hf].
  - rewrite decide_True by (by left).
    destruct (try_process_feature_raises verbose record_seq f st Hf) as [e ->]. eauto.
  - rewrite (try_process_feature_ok _ _ _ _ Hf).
    specialize (IH (process_feature verbose record_seq (forget_feature f) st)).
    destruct (decide (Exists (raises_at record_seq) fs)) as [Hfs|Hfs].
    + rewrite decide_True by (by right). done.
    + rewrite decide_False; [done|]. by intros [?|?]%Exists_cons.
Qed.

Lemma try_process_records (verbose : bool) (records : list Try.SeqRecord) (st : state) :
  if decide (body_raises records)
  then ∃ st' e, Try.process_records verbose records st = (st', Some e)
  else Try.process_records verbose records st =
       (process_records verbose (forget_record <$> records) st, None).
Proof.
  unfold body_raises, process_records. revert st.
  induction records as [|r rs IH]; intros st.
  { rewrite decide_False by (by intros ?%Exists_nil). done. }
  cbn [Try.process_records]. rewrite fmap_cons. cbn [foldl].
  pose proof (try_process_features verbose (Try.seq r) (Try.features r) st) as Hr.
  destruct (decide (Exists (raises_at (Try.seq r)) (Try.features r))) as [Hf|Hf].
  - rewrite decide_True by (by left). destruct Hr as (st' & e & ->). eauto.
  - rewrite Hr. unfold process_record at 1. cbn [forget_record seq features].
    specialize (IH (foldl (λ st f, process_feature verbose (Try.seq r) f st) st
                      (forget_feature <$> Try.features r))).
    destruct (decide (Exists _ rs)) as [Hrs|Hrs].
    + rewrite decide_True by (by right). done.
    + rewrite decide_False; [done|]. by intros [?|?]%Exists_cons.
Qed.

(** C4, as the code has it.  The result is absent exactly when an exception
    is raised inside the [try] block, by the reader (the file is missing,
    unreadable or malformed) or by the body of the loops (the extraction of
    the sequence of a CDS feature with a translation and without [pseudo]
    raises), whatever was counted before, or when the counts sum to zero.
    Otherwise the data frame made from the counter of all the records is
    returned: its counts sum to the complete codon positions of all the
    counted features. *)
Theorem absent_result_cases (src : Try.source) (t : Qc) (verbose : bool) :
  let st := (Try.aggregate verbose src).1 in
  (Try.calculate_codon_frequency_to_df src t verbose = None ↔
     is_Some (Try.raised src) ∨ body_raises (Try.yielded src)
     ∨ sum_values (codon_aa_counts st) = 0)
  ∧ (Try.raised src = None → ¬ body_raises (Try.yielded src) →
     sum_values (codon_aa_counts st) ≠ 0 →
     let records := forget_record <$> Try.yielded src in
     let counts := codon_aa_counts (process_records verbose records initial) in
     codon_aa_counts st = counts
     ∧ Try.calculate_codon_frequency_to_df src t verbose =
       Some (if decide (0 < t)%Qc
             then filter (λ r, (t ≤ Freq r)%Qc) (report_data counts)
             else report_data counts)
     ∧ sum_list (Count <$> report_data counts) = Spec.total_complete_codons records).
Proof.
  cbv zeta. unfold Try.calculate_codon_frequency_to_df, Try.aggregate.
  pose proof (try_process_records verbose (Try.yielded src) initial) as Hrun.
  destruct (decide (body_raises (Try.yielded src))) as [Hb|Hb].
  - destruct Hrun as (st' & e & ->). cbn [fst]. split; [|done].
    split; [auto|]. by destruct e.
  - rewrite Hrun. cbn [fst]. split.
    + destruct (Try.raised src) as [e|].
      * split; [eauto|]. by destruct e.
      * rewrite build_report_None. split; [auto|].
        intros [[? [=]]|[?|?]]; done.
    + intros -> _ Hne. split; [done|]. split; [by apply build_report_Some|].
      rewrite Count_report_data, <-sum_values_sorted.
      rewrite process_records_sum. unfold initial; cbn [codon_aa_counts].
      by rewrite sum_values_empty.
Qed.

Lemma absent_result_cases_witness :
  Try.calculate_codon_frequency_to_df missing_source 0 true = None
  ∧ Try.calculate_codon_frequency_to_df malformed_source 0 true = None
  ∧ Try.calculate_codon_frequency_to_df undefined_source 0 true = None
  ∧ Try.calculate_codon_frequency_to_df readable_source 0 true =
      Some (report_data (codon_aa_counts (process_records true [test_record] initial)))
  ∧ sum_list (Count <$> report_data
                (codon_aa_counts (process_records true [test_record] initial))) = 3.
Proof.
  split; [|split; [|split]].
  - apply (proj1 (absent_result_cases missing_source 0 true)). left. by eexists.
  - apply (proj1 (absent_result_cases malformed_source 0 true)). left. by eexists.
  - apply (proj1 (absent_result_cases undefined_source 0 true)). right; left.
    compute_done.
  - destruct (proj2 (absent_result_cases readable_source 0 true))
      as (_ & Hrows & Hsum).
    + reflexivity.
    + intros Hb. apply (bool_decide_pack _) in Hb. vm_compute in Hb. exact Hb.
    + vm_compute. discriminate.
    + split; [exact Hrows|]. etrans; [exact Hsum|]. vm_compute. reflexivity.
Defined.

(** C4 as it is stated fails: the file is read without an error of the
    reader and three codons are counted for its first record, and yet the
    result is absent, for the exception that the body of the loop raises at
    the second record. *)
Lemma absent_result_as_stated_fails :
  ¬ (Try.calculate_codon_frequency_to_df undefined_source 0 true = None ↔
     is_Some (Try.raised undefined_source)
     ∨ sum_values (codon_aa_counts (Try.aggregate true undefined_source).1) = 0).
Proof.
  intros [H _]. destruct H as [[e He]|H].
  - vm_compute. reflexivity.
  - discriminate He.
  - vm_compute in H. discriminate H.
Qed.
